(** * Agentic RAG chatbot: segmenter, message bus and vector store

    A shallow embedding of the three core modules of the repository
    ([ingestion_agent.chunk_text], [mcp] and [retrieval_agent]) together
    with the properties of the design document that concern them. *)

From Stdlib Require Import ZArith List Ascii String Bool Lia.
From Stdlib Require Import Floats.SpecFloat.
From stdpp Require Import base option list sorting gmap strings.

Local Open Scope Z_scope.

(** ** Python sequences

    Indices are Python integers ([Z]); a slice clamps both ends to the
    sequence the way [PySlice_AdjustIndices] does for a step of one. *)

Module Py.

Section Seq.
Context {A : Type}.

Definition len (s : list A) : Z := Z.of_nat (length s).

(** A negative bound counts from the end and is clamped at 0, a
    non-negative one is clamped at the length. *)
Definition adjust (n i : Z) : Z :=
  if i <? 0 then Z.max (i + n) 0 else Z.min i n.

(** [s[a:b]] *)
Definition slice (s : list A) (a b : Z) : list A :=
  let lo := adjust (len s) a in
  let hi := adjust (len s) b in
  firstn (Z.to_nat (hi - lo)) (skipn (Z.to_nat lo) s).

(** [s[:b]] *)
Definition slice_to (s : list A) (b : Z) : list A := slice s 0 b.

(** [s[a:]] *)
Definition slice_from (s : list A) (a : Z) : list A :=
  skipn (Z.to_nat (adjust (len s) a)) s.
End Seq.

(** [s.rfind(c)] for a one-character needle: the highest index holding
    [c], or -1. *)
Fixpoint rfind_from (c : ascii) (s : list ascii) (i acc : Z) : Z :=
  match s with
  | [] => acc
  | x :: s' => rfind_from c s' (i + 1) (if Ascii.eqb x c then i else acc)
  end.

Definition rfind (c : ascii) (s : list ascii) : Z := rfind_from c s 0 (-1).

(** [str.isspace] on the code points below 256. *)
Definition isspace (c : ascii) : bool :=
  let n := Z.of_nat (nat_of_ascii c) in
  ((9 <=? n) && (n <=? 13)) || ((28 <=? n) && (n <=? 32))
  || (n =? 133) || (n =? 160).

Fixpoint lstrip (s : list ascii) : list ascii :=
  match s with
  | c :: s' => if isspace c then lstrip s' else s
  | [] => []
  end.

Definition rstrip (s : list ascii) : list ascii := rev (lstrip (rev s)).

(** [s.strip()] *)
Definition strip (s : list ascii) : list ascii := rstrip (lstrip s).

End Py.

(** ** The float threshold [chunk_size * 0.7]

    The product is computed in binary64; the comparison of the integer
    break point with it is exact, as Python compares an [int] with a
    [float]. *)

Module F64.

Definition prec : Z := 53.
Definition emax : Z := 1024.

(** The double nearest to 0.7, [0x1.6666666666666p-1]. *)
Definition c07 : spec_float := S754_finite false 6305039478318694 (-53).

(** [float(n)], for the integers below 2^1024 in absolute value (from
    there on Python raises [OverflowError]). *)
Definition of_int (n : Z) : spec_float := binary_normalize prec emax n 0 false.

Definition mul (x y : spec_float) : spec_float := SFmul prec emax x y.

(** [n > f] for an integer [n] and a float [f]. *)
Definition int_gt (n : Z) (f : spec_float) : bool :=
  match f with
  | S754_zero _ => 0 <? n
  | S754_infinity neg => neg
  | S754_nan => false
  | S754_finite neg m e =>
      let v := if neg then Z.neg m else Z.pos m in
      if 0 <=? e then v * 2 ^ e <? n else v <? n * 2 ^ (- e)
  end.

End F64.

(** ** [ingestion_agent.chunk_text] *)

Module Segmenter.

Definition text := list ascii.

Definition period : ascii := "."%char.
Definition newline : ascii := ascii_of_nat 10.
Definition space : ascii := " "%char.

(** [break_point > chunk_size * 0.7] *)
Definition past_threshold (break_point chunk_size : Z) : bool :=
  F64.int_gt break_point (F64.mul (F64.of_int chunk_size) F64.c07).

(** [max(last_period, last_newline, last_space)] *)
Definition break_point (chunk : text) : Z :=
  Z.max (Z.max (Py.rfind period chunk) (Py.rfind newline chunk))
        (Py.rfind space chunk).

(** One pass through the body of the [while] loop: the chunk that is
    appended (before [strip]) and the value of [end] used for the next
    [start]. *)
Definition window (t : text) (chunk_size start : Z) : text * Z :=
  let end_ := start + chunk_size in
  let chunk := Py.slice t start end_ in
  if end_ <? Py.len t then
    let bp := break_point chunk in
    if past_threshold bp chunk_size
    then (Py.slice_to chunk (bp + 1), start + bp + 1)
    else (chunk, end_)
  else (chunk, end_).

(** The [while start < text_length] loop; [None] when the fuel runs out
    before the loop condition fails. *)
Fixpoint chunk_loop (fuel : nat) (t : text) (chunk_size overlap start : Z)
    (chunks : list text) : option (list text) :=
  if start <? Py.len t then
    match fuel with
    | O => None
    | S fuel' =>
        let '(chunk, end_) := window t chunk_size start in
        chunk_loop fuel' t chunk_size overlap (end_ - overlap)
                   (chunks ++ [Py.strip chunk])
    end
  else Some chunks.

Definition chunk_text (fuel : nat) (t : text) (chunk_size overlap : Z)
    : option (list text) :=
  match t with
  | [] => Some []
  | _ => chunk_loop fuel t chunk_size overlap 0 []
  end.

End Segmenter.

Definition txt (s : string) : list ascii := list_ascii_of_string s.

(** ** Properties of one window, stated independently of the code *)

Module SegmenterSpec.
Import Segmenter.

(** The characters [chunk_text] looks for. *)
Definition boundary (c : ascii) : Prop :=
  c = period \/ c = newline \/ c = space.

(** [bp] is the index of the last boundary character of [chunk], of
    whichever kind, or -1 when [chunk] holds none. *)
Definition last_boundary (chunk : text) (bp : Z) : Prop :=
  (bp = -1 /\ forall k c, chunk !! k = Some c -> ~ boundary c)
  \/ (0 <= bp
      /\ (exists c, chunk !! Z.to_nat bp = Some c /\ boundary c)
      /\ forall k c, (Z.to_nat bp < k)%nat -> chunk !! k = Some c ->
                     ~ boundary c).

(** The rule as the design document words it: a sentence terminator wins
    if the window holds one, else a newline, else a blank; the break
    point is taken when it lies at or past 70% of [chunk_size]. *)
Definition documented_break_point (chunk : text) : Z :=
  if 0 <=? Py.rfind period chunk then Py.rfind period chunk
  else if 0 <=? Py.rfind newline chunk then Py.rfind newline chunk
  else Py.rfind space chunk.

Definition documented_accepts (bp chunk_size : Z) : bool :=
  7 * chunk_size <=? 10 * bp.

Definition documented_window (t : text) (chunk_size start : Z) : text * Z :=
  let end_ := start + chunk_size in
  let chunk := Py.slice t start end_ in
  if end_ <? Py.len t then
    let bp := documented_break_point chunk in
    if documented_accepts bp chunk_size
    then (Py.slice_to chunk (bp + 1), start + bp + 1)
    else (chunk, end_)
  else (chunk, end_).

(** The binary64 product [chunk_size * 0.7] lies between the integers
    next to 70% of [chunk_size]: at least [ceil(7*chunk_size/10) - 1]
    and below [floor(7*chunk_size/10) + 1]. *)
Definition threshold_brackets (chunk_size : Z) : bool :=
  match F64.mul (F64.of_int chunk_size) F64.c07 with
  | S754_finite false m e =>
      (e <? 0)
      && (Z.pos m <? (7 * chunk_size / 10 + 1) * 2 ^ (- e))
      && (((7 * chunk_size + 9) / 10 - 1) * 2 ^ (- e) <=? Z.pos m)
  | _ => false
  end.

(** A text on which the loop stalls with [chunk_size = 10] and
    [overlap = 9]: the blank at index 8 ends the first window. *)
Definition stalling_text : text := txt "aaaaaaaa aaaaaaaa".

End SegmenterSpec.

(** ** [mcp]: the message bus

    A message is a Python [dict] that the caller keeps a reference to and
    that [send_mcp_message] stamps in place, so messages live in a heap
    and the queues hold references. *)

Module Bus.

Definition loc := positive.

(** What [retrieve_chunks] puts under ["payload"]; other payloads are
    opaque. *)
Inductive payload :=
  | QueryResults (query : string) (top_chunks : list (string * string))
                 (num_results total_docs : nat)
  | OtherPayload (tag : nat).

(** Field values: a string, structured data (a [dict] or [list], which
    cannot be hashed), and the two stamps, kept symbolic in the reading
    of the clock they were made from. *)
Inductive value :=
  | Str (s : string)
  | Struct (p : payload)
  | Timestamp (tick : nat)
  | MessageId (sender receiver : value) (tick : nat).

Inductive object :=
  | DictObj (fields : gmap string value)
  | OtherObj.

Record state := mkState {
  heap : gmap loc object;
  message_queues : gmap string (list loc);
  clock : nat
}.

Definition empty : state := mkState ∅ ∅ O.

Definition required_fields : list string := ["sender"; "receiver"; "payload"].

Definition has_field (m : gmap string value) (f : string) : bool :=
  bool_decide (is_Some (m !! f)).

(** [message_queues[receiver].append(message)] on the [defaultdict]. *)
Definition enqueue (r : string) (l : loc) (q : gmap string (list loc))
    : gmap string (list loc) :=
  <[r := default [] (q !! r) ++ [l]]> q.

Definition send_mcp_message (l : loc) (σ : state) : bool * state :=
  match heap σ !! l with
  | Some (DictObj m) =>
      if forallb (has_field m) required_fields then
        let m1 := <["timestamp" := Timestamp (clock σ)]> m in
        let id := MessageId (default (Str "") (m1 !! "sender"))
                            (default (Str "") (m1 !! "receiver"))
                            (S (clock σ)) in
        let m2 := <["message_id" := id]> m1 in
        let h := <[l := DictObj m2]> (heap σ) in
        match m2 !! "receiver" with
        | Some (Str r) =>
            (true, mkState h (enqueue r l (message_queues σ)) (S (S (clock σ))))
        | _ =>
            (* an unhashable receiver: the [TypeError] is caught; a stamp
               copied into the receiver field is not told apart from it *)
            (false, mkState h (message_queues σ) (S (S (clock σ))))
        end
      else (false, σ)
  | _ => (false, σ)
  end.

Definition receive_mcp_message (r : string) (σ : state) : option loc * state :=
  match message_queues σ !! r with
  | Some (l :: q) =>
      let σ' := mkState (heap σ) (<[r := q]> (message_queues σ)) (clock σ) in
      match heap σ !! l with
      | Some (DictObj m) =>
          (* the log line reads [message['sender']] after the pop *)
          if has_field m "sender" then (Some l, σ') else (None, σ')
      | _ => (None, σ')
      end
  | _ => (None, σ)
  end.

Definition peek_mcp_message (r : string) (σ : state) : nat :=
  length (default [] (message_queues σ !! r)).

Definition clear_mcp_queue (r : string) (σ : state) : state :=
  match message_queues σ !! r with
  | Some _ => mkState (heap σ) (<[r := []]> (message_queues σ)) (clock σ)
  | None => σ
  end.

(** A fresh [dict] literal. *)
Definition alloc (m : gmap string value) (σ : state) : loc * state :=
  let l := fresh (dom (heap σ)) in
  (l, mkState (<[l := DictObj m]> (heap σ)) (message_queues σ) (clock σ)).

(** The object at [l] is a message addressed to [r] that carries the
    three required fields. *)
Definition envelope_for (r : string) (σ : state) (l : loc) : Prop :=
  exists m, heap σ !! l = Some (DictObj m)
            /\ m !! "receiver" = Some (Str r)
            /\ is_Some (m !! "sender") /\ is_Some (m !! "payload").

(** The three fields the sender filled in. *)
Definition draft_of (σ : state) (l : loc) : option (value * value * value) :=
  match heap σ !! l with
  | Some (DictObj m) =>
      s ← m !! "sender"; r ← m !! "receiver"; p ← m !! "payload";
      Some (s, r, p)
  | _ => None
  end.

(** Three drafts addressed to ["R"], none of them sent yet. *)
Definition draft (sender : string) (tag : nat) : object :=
  DictObj {[ "sender" := Str sender; "receiver" := Str "R";
             "payload" := Struct (OtherPayload tag) ]}.

Definition three_drafts : state :=
  mkState {[ 1%positive := draft "A" 1; 2%positive := draft "B" 2;
             3%positive := draft "C" 3 ]} ∅ O.

End Bus.

(** ** The FAISS flat index

    [faiss.IndexFlatL2] is an external library: an exact, brute-force
    index under the squared Euclidean distance.  Coordinates are modelled
    as exact numbers, so rounding in the distance computation is left
    out; a result row lists the nearest vectors first, equal distances in
    the order of insertion, and is padded with -1 when the index holds
    fewer than [k] vectors.  The library itself computes in float32: two
    vectors whose distances differ by less than its rounding can come in
    another order there.  What must hold whatever the library answers is
    stated over [VectorStore.retrieve_chunks_over], which takes the
    search as a parameter. *)

Module Faiss.

Definition vec := list Z.

Record IndexFlatL2 := mkIndex {
  d : nat;
  xb : list vec
}.

Definition ntotal (idx : IndexFlatL2) : nat := length (xb idx).

(** [index.add(x)]: every row must have the dimension of the index. *)
Definition add (x : list vec) (idx : IndexFlatL2) : option IndexFlatL2 :=
  if forallb (fun v => Nat.eqb (length v) (d idx)) x
  then Some (mkIndex (d idx) (xb idx ++ x))
  else None.

Fixpoint L2sqr (q x : vec) : Z :=
  match q, x with
  | a :: q', b :: x' => (a - b) * (a - b) + L2sqr q' x'
  | _, _ => 0
  end.

(** Distance and position of every stored vector, in storage order. *)
Fixpoint scan (q : vec) (x : list vec) (i : nat) : list (Z * nat) :=
  match x with
  | [] => []
  | v :: x' => (L2sqr q v, i) :: scan q x' (S i)
  end.

Fixpoint insert (h : Z * nat) (l : list (Z * nat)) : list (Z * nat) :=
  match l with
  | [] => [h]
  | h' :: l' => if h.1 <=? h'.1 then h :: l else h' :: insert h l'
  end.

Fixpoint sort (l : list (Z * nat)) : list (Z * nat) :=
  match l with
  | [] => []
  | h :: l' => insert h (sort l')
  end.

(** All stored vectors, nearest first. *)
Definition ranked (idx : IndexFlatL2) (q : vec) : list (Z * nat) :=
  sort (scan q (xb idx) O).

(** [index.search(x, k)] for a single query row: [None] where the Python
    wrapper's assertions on the dimension and on [k > 0] fail, else the
    [k] labels of the row. *)
Definition search (idx : IndexFlatL2) (q : vec) (k : Z) : option (list Z) :=
  if negb (Nat.eqb (length q) (d idx)) then None
  else if k <=? 0 then None
  else
    let hits := firstn (Z.to_nat k) (ranked idx q) in
    Some (map (fun h => Z.of_nat h.2) hits
          ++ replicate (Z.to_nat k - length hits) (-1)).

End Faiss.

(** ** [retrieval_agent]: the vector store *)

Module VectorStore.
Import Faiss.

(** What a call hands back to its caller. *)
Inductive outcome (A : Type) :=
  | Returned (a : A)
  | Raised (exception : string).
Arguments Returned {A} a.
Arguments Raised {A} exception.

(** The three module globals. *)
Record store := mkStore {
  vector_index : option IndexFlatL2;
  stored_chunks : list string;
  document_mapping : list string
}.

(** The content of [embeddings.pkl]: a pickle that does not load, or a
    [dict] that may lack either key. *)
Inductive pickle :=
  | Unreadable
  | Pickled (chunks documents : option (list string)).

(** The two companion files; [None] for a missing file, [Some None] for
    an index file that [faiss.read_index] refuses. *)
Record disk := mkDisk {
  index_file : option (option IndexFlatL2);
  embeddings_file : option pickle
}.

Definition dimension : nat := 384.

Definition fresh_store : store := mkStore (Some (mkIndex dimension [])) [] [].

(** The state of the module before [initialize_vector_store] has run. *)
Definition unset_store : store := mkStore None [] [].

Definition initialize_vector_store (dk : disk) : store :=
  match index_file dk, embeddings_file dk with
  | Some fi, Some fe =>
      match fi, fe with
      | Some idx, Pickled (Some chunks) (Some documents) =>
          mkStore (Some idx) chunks documents
      | _, _ => fresh_store
      end
  | _, _ => fresh_store
  end.

(** [save_vector_store] opens each target file for writing, which
    empties it, and then fills it: first the index, then the metadata. *)
Inductive write :=
  | TruncateIndex
  | FillIndex (idx : IndexFlatL2)
  | TruncateEmbeddings
  | FillEmbeddings (chunks documents : list string).

Definition apply_write (dk : disk) (w : write) : disk :=
  match w with
  | TruncateIndex => mkDisk (Some None) (embeddings_file dk)
  | FillIndex idx => mkDisk (Some (Some idx)) (embeddings_file dk)
  | TruncateEmbeddings => mkDisk (index_file dk) (Some Unreadable)
  | FillEmbeddings c ds => mkDisk (index_file dk) (Some (Pickled (Some c) (Some ds)))
  end.

Definition save_writes (st : store) : list write :=
  match vector_index st with
  | Some idx =>
      [TruncateIndex; FillIndex idx; TruncateEmbeddings;
       FillEmbeddings (stored_chunks st) (document_mapping st)]
  | None => []
  end.

Definition save_vector_store (st : store) (dk : disk) : disk :=
  fold_left apply_write (save_writes st) dk.

(** A save that stops, by a crash or an I/O error, after [n] writes. *)
Definition save_interrupted (n : nat) (st : store) (dk : disk) : disk :=
  fold_left apply_write (firstn n (save_writes st)) dk.

Definition ensure_initialized (st : store) (dk : disk) : store :=
  match vector_index st with
  | Some _ => st
  | None => initialize_vector_store dk
  end.

(** [l[i]] for a Python list: a negative index counts from the end. *)
Definition py_index {A} (l : list A) (i : Z) : option A :=
  if (0 <=? i) && (i <? Py.len l) then l !! Z.to_nat i
  else if (- Py.len l <=? i) && (i <? 0) then l !! Z.to_nat (Py.len l + i)
  else None.

Fixpoint collect (chunks documents : list string) (labels : list Z)
    : option (list (string * string)) :=
  match labels with
  | [] => Some []
  | i :: labels' =>
      if i <? Py.len chunks then
        c ← py_index chunks i; doc ← py_index documents i;
        rest ← collect chunks documents labels';
        Some ((c, doc) :: rest)
      else collect chunks documents labels'
  end.

(** The logging loop reads [document_mapping[idx]] for every label. *)
Definition log_ranks (documents : list string) (labels : list Z) : option unit :=
  if forallb (fun i => bool_decide (is_Some (py_index documents i))) labels
  then Some tt else None.

Record stats := mkStats {
  total_chunks : nat;
  total_documents : nat;
  documents : gset string;
  index_size : nat
}.

Definition get_vector_store_stats (st : store) : stats :=
  let unique_docs : gset string := list_to_set (document_mapping st) in
  mkStats (length (stored_chunks st)) (size unique_docs) unique_docs
          (match vector_index st with Some idx => ntotal idx | None => O end).

Definition clear_vector_store (st : store) (dk : disk) : store * disk :=
  (fresh_store, mkDisk None None).



Section WithEmbedder.
(** [create_embeddings]: the sentence-transformer model, [None] when
    it fails. *)
Variable create_embeddings : list string -> option (list vec).

(** [store_embeddings] with a save that runs to its end; for a save that
    stops early see [store_embeddings_interrupted] below. *)
Definition store_embeddings (chunks : list string) (document_name : string)
    (st : store) (dk : disk) : bool * store * disk :=
  match chunks with
  | [] => (false, st, dk)
  | _ =>
      let st1 := ensure_initialized st dk in
      match create_embeddings chunks with
      | None => (false, st1, dk)
      | Some embeddings =>
          match vector_index st1 ≫= add embeddings with
          | Some idx =>
              let st2 :=
                mkStore (Some idx) (stored_chunks st1 ++ chunks)
                  (document_mapping st1
                   ++ replicate (length chunks) document_name) in
              (true, st2, save_vector_store st2 dk)
          | None => (false, st1, dk)
          end
      end
  end.

(** The body of the [try] block of [retrieve_chunks]; [None] where it
    raises. *)
Definition ranked_chunks (query : string) (top_k : Z) (st : store)
    : option (list (string * string)) :=
  embedding ← create_embeddings [query];
  q ← head embedding;
  idx ← vector_index st;
  labels ← search idx q (Z.min top_k (Py.len (stored_chunks st)));
  results ← collect (stored_chunks st) (document_mapping st) labels;
  _ ← log_ranks (document_mapping st) labels;
  Some results.

Definition results_message (query : string) (results : list (string * string))
    (st : store) : gmap string Bus.value :=
  let total_docs := size (list_to_set (document_mapping st) : gset string) in
  {[ "sender" := Bus.Str "RetrievalAgent";
     "receiver" := Bus.Str "LLMResponseAgent";
     "payload" := Bus.Struct
                    (Bus.QueryResults query results (length results)
                                      total_docs) ]}.

Definition retrieve_chunks (query : string) (top_k : Z)
    (st : store) (dk : disk) (bus : Bus.state)
    : outcome (list (string * string)) * store * Bus.state :=
  let st1 := ensure_initialized st dk in
  match stored_chunks st1 with
  | [] => (Returned [], st1, bus)
  | _ =>
      match ranked_chunks query top_k st1 with
      | Some results =>
          let '(l, bus1) := Bus.alloc (results_message query results st1) bus in
          (Returned results, st1, (Bus.send_mcp_message l bus1).2)
      | None => (Returned [], st1, bus)
      end
  end.
End WithEmbedder.

(** [retrieve_chunks] with the call [vector_index.search(x, k)] into the
    FAISS library left open: the library computes its distances in
    float32, so the labels it answers are taken as given, [None] where
    the call raises.  With [Faiss.search] for it this is [retrieve_chunks]
    above. *)
Section WithIndexSearch.
Variable create_embeddings : list string -> option (list vec).
Variable index_search : IndexFlatL2 -> vec -> Z -> option (list Z).

Definition ranked_chunks_over (query : string) (top_k : Z) (st : store)
    : option (list (string * string)) :=
  embedding ← create_embeddings [query];
  q ← head embedding;
  idx ← vector_index st;
  labels ← index_search idx q (Z.min top_k (Py.len (stored_chunks st)));
  results ← collect (stored_chunks st) (document_mapping st) labels;
  _ ← log_ranks (document_mapping st) labels;
  Some results.

Definition retrieve_chunks_over (query : string) (top_k : Z)
    (st : store) (dk : disk) (bus : Bus.state)
    : outcome (list (string * string)) * store * Bus.state :=
  let st1 := ensure_initialized st dk in
  match stored_chunks st1 with
  | [] => (Returned [], st1, bus)
  | _ =>
      match ranked_chunks_over query top_k st1 with
      | Some results =>
          let '(l, bus1) := Bus.alloc (results_message query results st1) bus in
          (Returned results, st1, (Bus.send_mcp_message l bus1).2)
      | None => (Returned [], st1, bus)
      end
  end.
End WithIndexSearch.

(** [store_embeddings] with a save that stops after [n] of its writes:
    [save_vector_store] catches its own exception, so the call goes on to
    return [True] whether or not the files were written.  With [n >= 4]
    the save is complete and this is [store_embeddings] above. *)
Section WithInterruptedSave.
Variable create_embeddings : list string -> option (list vec).

Definition store_embeddings_interrupted (n : nat) (chunks : list string)
    (document_name : string) (st : store) (dk : disk) : bool * store * disk :=
  match chunks with
  | [] => (false, st, dk)
  | _ =>
      let st1 := ensure_initialized st dk in
      match create_embeddings chunks with
      | None => (false, st1, dk)
      | Some embeddings =>
          match vector_index st1 ≫= add embeddings with
          | Some idx =>
              let st2 :=
                mkStore (Some idx) (stored_chunks st1 ++ chunks)
                  (document_mapping st1
                   ++ replicate (length chunks) document_name) in
              (true, st2, save_interrupted n st2 dk)
          | None => (false, st1, dk)
          end
      end
  end.
End WithInterruptedSave.

(** The three parallel collections have one length. *)
Definition aligned (st : store) : Prop :=
  length (stored_chunks st) = length (document_mapping st)
  /\ length (stored_chunks st) = index_size (get_vector_store_stats st).

(** A pair of files that loads has one length as well. *)
Definition snapshot_aligned (dk : disk) : Prop :=
  forall idx chunks documents,
    index_file dk = Some (Some idx) ->
    embeddings_file dk = Some (Pickled (Some chunks) (Some documents)) ->
    length chunks = length documents /\ length chunks = ntotal idx.

(** Nearer first; at equal distance, the vector inserted earlier. *)
Definition ranks_before (a b : Z * nat) : Prop :=
  a.1 < b.1 \/ (a.1 = b.1 /\ (a.2 < b.2)%nat).

(** The result [r] is the chunk and document stored at the position of
    the hit [h], whose distance is that of the vector stored there. *)
Definition hit_of (st : store) (idx : IndexFlatL2) (q : vec)
    (h : Z * nat) (r : string * string) : Prop :=
  stored_chunks st !! h.2 = Some r.1
  /\ document_mapping st !! h.2 = Some r.2
  /\ exists v, xb idx !! h.2 = Some v /\ h.1 = L2sqr q v.

(** An embedder for the examples: one vector of the index dimension per
    text, every coordinate the length of the text. *)
Definition length_embedder (texts : list string) : option (list vec) :=
  Some (map (fun t => replicate dimension (Z.of_nat (String.length t))) texts).

(** The store and the files after ["a"] of [a.txt] has been stored in a
    fresh store with no files. *)
Definition one_chunk : bool * store * disk :=
  store_embeddings length_embedder ["a"%string] "a.txt" fresh_store
                   (mkDisk None None).

(** Then ["bb"] of [b.txt] is stored, and the save stops after the index
    file has been written. *)
Definition two_chunks : bool * store * disk :=
  store_embeddings length_embedder ["bb"%string] "b.txt"
                   one_chunk.1.2 one_chunk.2.

Definition torn_snapshot : disk :=
  save_interrupted 2 two_chunks.1.2 one_chunk.2.

End VectorStore.

(** ** More of [ingestion_agent]: the choice of the extractor *)

Module Ingestion.
Import Segmenter.

(** [str.lower] on the code points below 256: the ASCII capitals and
    the Latin-1 capitals (all of 192..222 but the multiplication sign).
    A [text] holds such code points only; beyond them [str.lower] also
    looks at the neighbours of a character (the final sigma), which is
    not modelled. *)
Definition lower_char (c : ascii) : ascii :=
  let n := nat_of_ascii c in
  if ((65 <=? n) && (n <=? 90))%nat
     || ((192 <=? n) && (n <=? 222) && negb (n =? 215))%nat
  then ascii_of_nat (n + 32) else c.

Definition lower (s : text) : text := map lower_char s.

(** [s.split('.')[-1]]: what follows the last full stop, or all of [s]
    when it holds none; [acc] is the segment read so far, reversed. *)
Fixpoint last_segment (s : text) (acc : text) : text :=
  match s with
  | [] => rev acc
  | c :: s' => if Ascii.eqb c period then last_segment s' []
               else last_segment s' (c :: acc)
  end.

(** [filename.lower().split('.')[-1]] *)
Definition file_extension (filename : text) : text :=
  last_segment (lower filename) [].

Inductive extractor := Pdf | Docx | Pptx | Txt | Csv.

(** The [if]/[elif] chain of [process_document]; [None] for an
    unsupported file type. *)
Definition select_extractor (filename : text) : option extractor :=
  let ext := file_extension filename in
  if decide (ext = txt "pdf") then Some Pdf
  else if decide (ext = txt "docx") then Some Docx
  else if decide (ext = txt "pptx") then Some Pptx
  else if decide (ext = txt "txt" \/ ext = txt "md") then Some Txt
  else if decide (ext = txt "csv") then Some Csv
  else None.

(** A chunk that neither starts nor ends with white space. *)
Definition trimmed (c : text) : Prop :=
  (forall x, head c = Some x -> Py.isspace x = false)
  /\ (forall x, last c = Some x -> Py.isspace x = false).

(** The windows of [chunk_size] characters taken every
    [chunk_size - overlap] characters from [start] on, [n] of them. *)
Fixpoint fixed_windows (t : text) (chunk_size overlap start : Z) (n : nat)
    : list text :=
  match n with
  | O => []
  | S n' =>
      Py.strip (Py.slice t start (start + chunk_size))
      :: fixed_windows t chunk_size overlap (start + chunk_size - overlap) n'
  end.

End Ingestion.

(** ** More of [mcp]: statistics, and runs of sends and receives *)

Module BusStats.
Import Bus.

Record queue_info := mkInfo {
  message_count : nat;
  latest_sender : option value
}.

(** [messages[-1]["sender"] if messages else None]; the outer [None]
    where the subscript raises. *)
Definition latest_sender_of (σ : state) (messages : list loc)
    : option (option value) :=
  match last messages with
  | None => Some None
  | Some l =>
      match heap σ !! l with
      | Some (DictObj m) => s ← m !! "sender"; Some (Some s)
      | _ => None
      end
  end.

Definition queue_info_of (σ : state) (messages : list loc)
    : option queue_info :=
  s ← latest_sender_of σ messages; Some (mkInfo (length messages) s).

(** [get_mcp_stats]: the number of queues and the entry of each; [None]
    where building an entry raises. *)
Definition get_mcp_stats (σ : state) : option (nat * gmap string queue_info) :=
  let infos := queue_info_of σ <$> message_queues σ in
  if decide (map_Forall (fun _ o => is_Some o) infos)
  then Some (size (message_queues σ), omap id infos)
  else None.

(** The dictionary [send_mcp_message] leaves at [l]: the one found
    there, with the two stamps added. *)
Definition stamped (σ : state) (m : gmap string value) : gmap string value :=
  <["message_id" := MessageId (default (Str "") (m !! "sender"))
                              (default (Str "") (m !! "receiver"))
                              (S (clock σ))]>
    (<["timestamp" := Timestamp (clock σ)]> m).

(** Every queued reference points to a message that has a sender and
    names the queue it is in as its receiver. *)
Definition well_queued (σ : state) : Prop :=
  forall r q l,
    message_queues σ !! r = Some q -> l ∈ q ->
    exists m, heap σ !! l = Some (DictObj m)
              /\ is_Some (m !! "sender")
              /\ m !! "receiver" = Some (Str r).

(** Sending the messages of a list one after the other. *)
Fixpoint send_all (ls : list loc) (σ : state) : state :=
  match ls with
  | [] => σ
  | l :: ls' => send_all ls' (send_mcp_message l σ).2
  end.

(** [n] calls of [receive_mcp_message] on one receiver. *)
Fixpoint receive_n (n : nat) (r : string) (σ : state)
    : list (option loc) * state :=
  match n with
  | O => ([], σ)
  | S n' =>
      let '(o, σ1) := receive_mcp_message r σ in
      let '(os, σ2) := receive_n n' r σ1 in
      (o :: os, σ2)
  end.

End BusStats.

(** ** [llm_response_agent]: building the prompt and the answer *)

Module Llm.

Local Open Scope string_scope.

Definition nl : string := String (ascii_of_nat 10) EmptyString.

(** [s.lower()] and [s.strip()] on strings. *)
Definition lower (s : string) : string :=
  string_of_list_ascii (Ingestion.lower (list_ascii_of_string s)).

Definition strip (s : string) : string :=
  string_of_list_ascii (Py.strip (list_ascii_of_string s)).

(** [needle in hay] *)
Fixpoint contains (needle hay : string) : bool :=
  String.prefix needle hay
  || match hay with
     | EmptyString => false
     | String _ hay' => contains needle hay'
     end.

(** [sep.join(l)] *)
Fixpoint join (sep : string) (l : list string) : string :=
  match l with
  | [] => EmptyString
  | [s] => s
  | s :: l' => s ++ sep ++ join sep l'
  end.

(** The keys of [AVAILABLE_MODELS]. *)
Definition AVAILABLE_MODELS : list string :=
  ["llama-3.3-70b-versatile"; "llama-3.1-70b-versatile";
   "llama-3.1-8b-instant"].

Definition default_model : string := "llama-3.3-70b-versatile".

Definition default_instruction : string :=
  "You are an AI assistant for a Retrieval-Augmented Generation (RAG) chatbot. Your task is to answer user questions using only the information provided in the context." ++ nl ++
  nl ++
  "Guidelines:" ++ nl ++
  "- Only use information from the provided context" ++ nl ++
  "- Do not add external knowledge or make assumptions" ++ nl ++
  "- If the context is insufficient, acknowledge it clearly" ++ nl ++
  "- Provide accurate, clear, and detailed responses" ++ nl ++
  "- Cite specific parts of the context when relevant" ++ nl ++
  "- Be concise but comprehensive" ++ nl ++
  "- Use a professional and helpful tone".

(** [construct_prompt(query, context)] with the default instruction. *)
Definition construct_prompt (query context : string) : string :=
  default_instruction ++ nl ++ nl ++ "Context:" ++ nl ++ context ++ nl ++ nl
  ++ "Question: " ++ query ++ nl ++ nl ++ "Answer:".

(** The context handed to the model: every chunk under the name of its
    document, in the order of [top_chunks]. *)
Definition context_of (top_chunks : list (string * string)) : string :=
  join (nl ++ nl)
       (map (fun cd => "[Source: " ++ cd.2 ++ "]" ++ nl ++ cd.1) top_chunks).

Definition no_context_answer : string :=
  "I couldn't find any relevant information in the uploaded documents to answer your question. Please upload documents first.".

Definition no_model_answer : string :=
  "Error: Unable to initialize language model. Please check your API key and try again.".

(** The answer for a call of the model that raised with [error_msg]. *)
Definition error_answer (error_msg : string) : string :=
  if contains "rate_limit" (lower error_msg) then
    "Error: Rate limit exceeded. Please wait a moment and try again."
  else if contains "context_length" (lower error_msg) then
    "Error: Context too long. Try uploading smaller documents or asking a more specific question."
  else if contains "authentication" (lower error_msg)
          || contains "api_key" (lower error_msg) then
    "Error: Authentication failed. Please check your Groq API key in the .env file."
  else "Error generating response: " ++ error_msg.

Section WithGroq.
(** The Groq client: whether [ChatGroq(model, temperature)] can be
    built, and what [invoke] answers for a prompt, the content of the
    response or the text of the exception it raises.  A temperature is
    known by its printed form. *)
Variable create : string -> string -> bool.
Variable invoke : string -> string -> string -> string + string.

(** [get_llm]: the cache after the call, [None] where building the
    client raises; the cache is keyed by [f"{model_name}_{temperature}"]. *)
Definition get_llm (model_name temperature : string) (cache : gset string)
    : option (gset string) :=
  let cache_key := model_name ++ "_" ++ temperature in
  if decide (cache_key ∈ cache) then Some cache
  else if create model_name temperature then Some ({[cache_key]} ∪ cache)
  else None.

(** [generate_response]: the answer, the set of sources and the cache
    after the call. *)
Definition generate_response (query : string)
    (top_chunks : list (string * string)) (model_name temperature : string)
    (cache : gset string) : string * gset string * gset string :=
  let model_name :=
    if decide (model_name ∈ AVAILABLE_MODELS) then model_name
    else default_model in
  match top_chunks with
  | [] => (no_context_answer, ∅, cache)
  | _ =>
      let prompt := construct_prompt query (context_of top_chunks) in
      match get_llm model_name temperature cache with
      | None => (no_model_answer, ∅, cache)
      | Some cache' =>
          match invoke model_name temperature prompt with
          | inl content =>
              (strip content, list_to_set (map snd top_chunks), cache')
          | inr error_msg => (error_answer error_msg, ∅, cache')
          end
      end
  end.
End WithGroq.

End Llm.

(** ** [app]: answering a query *)

Module App.
Import VectorStore.

Record session := mkSession {
  store_of : store;
  files_of : disk;
  bus_of : Bus.state;
  llm_cache : gset string
}.

(** [message["payload"]["query"]] and [message["payload"]["top_chunks"]]:
    a [KeyError] where the message has no payload or the payload is a
    dictionary of another shape, a [TypeError] where the payload (or the
    message) is no dictionary. *)
Definition query_results (b : Bus.state) (l : Bus.loc)
    : outcome (string * list (string * string)) :=
  match Bus.heap b !! l with
  | Some (Bus.DictObj m) =>
      match m !! "payload" with
      | Some (Bus.Struct (Bus.QueryResults query top_chunks _ _)) =>
          Returned (query, top_chunks)
      | Some (Bus.Struct (Bus.OtherPayload _)) => Raised "KeyError"
      | Some _ => Raised "TypeError"
      | None => Raised "KeyError"
      end
  | _ => Raised "TypeError"
  end.

Section WithCollaborators.
Variable create_embeddings : list string -> option (list Faiss.vec).
Variable create : string -> string -> bool.
Variable invoke : string -> string -> string -> string + string.

(** [coordinate_query]: [Returned None] stands for the pair
    [(None, None)]; the call raises where reading the query and the
    chunks off the received message does. *)
Definition coordinate_query (query selected_model : string) (s : session)
    : outcome (option (string * gset string)) * session :=
  let '(_, st, b) :=
    retrieve_chunks create_embeddings query 5 (store_of s) (files_of s)
                    (bus_of s) in
  let '(message, b') := Bus.receive_mcp_message "LLMResponseAgent" b in
  match message with
  | Some l =>
      match query_results b' l with
      | Returned (q, top_chunks) =>
          let '(answer, sources, cache) :=
            Llm.generate_response create invoke q top_chunks selected_model
                                  "0.7" (llm_cache s) in
          (Returned (Some (answer, sources)),
           mkSession st (files_of s) b' cache)
      | Raised e => (Raised e, mkSession st (files_of s) b' (llm_cache s))
      end
  | None => (Returned None, mkSession st (files_of s) b' (llm_cache s))
  end.
End WithCollaborators.

(** For the examples: a client that can always be built and a model
    that echoes a fixed answer. *)
Definition always_create (model_name temperature : string) : bool := true.

Definition fixed_invoke (model_name temperature prompt : string)
    : string + string := inl " It says so. "%string.

(** The two-chunk store of the example with an idle bus. *)
Definition loaded_session : session :=
  mkSession two_chunks.1.2 two_chunks.2 Bus.empty ∅.

(** The same store while a result message for an earlier query is still
    pending. *)
Definition pending_results : gmap string Bus.value :=
  results_message "old query" [("a"%string, "a.txt"%string)] two_chunks.1.2.

Definition stale_session : session :=
  mkSession two_chunks.1.2 two_chunks.2
    (Bus.send_mcp_message (Bus.alloc pending_results Bus.empty).1
                          (Bus.alloc pending_results Bus.empty).2).2
    ∅.

End App.

(** ** Facts about the Python sequence operations *)

Section PyFacts.
Import Py.

Lemma len_nonneg {A} (s : list A) : 0 <= len s.
Proof. unfold len; lia. Qed.

Lemma len_nil_iff {A} (s : list A) : len s = 0 <-> s = [].
Proof.
  unfold len; split; [|intros ->; reflexivity].
  destruct s; [reflexivity | simpl; lia].
Qed.

Lemma adjust_range (n i : Z) : 0 <= n -> 0 <= adjust n i <= n.
Proof. unfold adjust; destruct (Z.ltb_spec i 0); lia. Qed.

(** A window of [w] characters never yields more than [w] of them,
    wherever it starts. *)
Lemma slice_len_le {A} (s : list A) (a w : Z) :
  0 <= w -> len (slice s a (a + w)) <= w.
Proof.
  intros Hw. unfold slice, len.
  rewrite length_take, length_drop.
  pose proof (len_nonneg s) as Hn. unfold len in *.
  unfold adjust.
  destruct (Z.ltb_spec a 0), (Z.ltb_spec (a + w) 0); lia.
Qed.

(** A window that starts inside the text and reaches its end is the
    suffix from the start. *)
Lemma slice_reaching_end {A} (s : list A) (a b : Z) :
  0 <= a -> len s <= b -> slice s a b = slice_from s a.
Proof.
  intros Ha Hb. unfold slice, slice_from.
  apply firstn_all2. rewrite length_drop.
  pose proof (len_nonneg s) as Hn.
  unfold adjust, len in *.
  destruct (Z.ltb_spec a 0), (Z.ltb_spec b 0); lia.
Qed.

Lemma slice_from_0 {A} (s : list A) : slice_from s 0 = s.
Proof.
  unfold slice_from, adjust. simpl.
  rewrite Z.min_l by apply len_nonneg. reflexivity.
Qed.

Lemma rfind_from_bounds c s i acc :
  -1 <= acc < i -> 0 <= i -> -1 <= rfind_from c s i acc < i + len s.
Proof.
  revert i acc. induction s as [|x s IH]; intros i acc Hacc Hi; simpl.
  - unfold len; simpl; lia.
  - specialize (IH (i + 1) (if Ascii.eqb x c then i else acc)).
    unfold len in *; simpl length.
    destruct (Ascii.eqb x c); lia.
Qed.

Lemma rfind_bounds c s : -1 <= rfind c s < len s.
Proof. unfold rfind. pose proof (rfind_from_bounds c s 0 (-1)). lia. Qed.
End PyFacts.


(** ** The segmenter *)

Section SegmenterFacts.
Import Py Segmenter SegmenterSpec.

Lemma window_reaching_end (t : text) (cs start : Z) :
  0 <= start -> len t <= start + cs ->
  window t cs start = (slice_from t start, start + cs).
Proof.
  intros Hs He. unfold window.
  destruct (Z.ltb_spec (start + cs) (len t)); [lia|].
  now rewrite slice_reaching_end.
Qed.

(** Whatever the window holds, [end] is at most [start + chunk_size]. *)
Lemma window_end_le (t : text) (cs start : Z) :
  0 < cs -> (window t cs start).2 <= start + cs.
Proof.
  intros Hcs. unfold window.
  destruct (start + cs <? len t); [|simpl; lia].
  destruct (past_threshold _ _); [|simpl; lia].
  simpl. unfold break_point.
  pose proof (slice_len_le t start cs ltac:(lia)) as Hl.
  pose proof (rfind_bounds period (slice t start (start + cs))).
  pose proof (rfind_bounds newline (slice t start (start + cs))).
  pose proof (rfind_bounds space (slice t start (start + cs))).
  lia.
Qed.

Lemma chunk_loop_done fuel (t : text) cs ov start chunks :
  len t <= start -> chunk_loop fuel t cs ov start chunks = Some chunks.
Proof.
  intros H. destruct fuel; simpl;
    destruct (Z.ltb_spec start (len t)); (lia || reflexivity).
Qed.

(** A loop whose [start] never moves forward from a position inside
    the text never ends. *)
Lemma chunk_loop_stuck (t : text) (cs ov : Z) :
  0 < cs -> cs <= ov -> t <> [] ->
  forall fuel start chunks,
    start <= 0 -> chunk_loop fuel t cs ov start chunks = None.
Proof.
  intros Hcs Hov Ht.
  assert (0 < len t) as Hlen.
  { pose proof (len_nonneg t). pose proof (len_nil_iff t). 
    destruct (Z.eq_dec (len t) 0); [tauto | lia]. }
  induction fuel as [|fuel IH]; intros start chunks Hs; simpl;
    destruct (Z.ltb_spec start (len t)); try lia; [reflexivity|].
  pose proof (window_end_le t cs start Hcs) as Hw.
  destruct (window t cs start) as [chunk end_]; simpl in Hw.
  apply IH. lia.
Qed.
End SegmenterFacts.

Section SegmenterClaims.
Import Py Segmenter SegmenterSpec.

Lemma stalling_loop fuel chunks :
  chunk_loop fuel stalling_text 10 9 0 chunks = None.
Proof.
  revert chunks. induction fuel as [|fuel IH]; intros chunks.
  - reflexivity.
  - change (chunk_loop (S fuel) stalling_text 10 9 0 chunks)
      with (let '(chunk, end_) := window stalling_text 10 0 in
            chunk_loop fuel stalling_text 10 9 (end_ - 9)
                       (chunks ++ [strip chunk])).
    replace (window stalling_text 10 0) with (txt "aaaaaaaa ", 9)
      by (vm_compute; reflexivity).
    apply IH.
Qed.

(** C2. [chunk_text] is expected to terminate with at least one chunk
    for every non-empty text and every configuration with
    [0 <= overlap < chunk_size].  On the seventeen-character text
    above with [chunk_size = 10] and [overlap = 9] the configuration is
    valid, yet the first window is cut after the blank at index 8, the
    next start is [9 - 9 = 0] again, and no amount of fuel lets the
    loop return. *)
Theorem chunk_text_stalls_on_valid_configuration :
  stalling_text <> [] /\ 0 < 10 /\ 0 <= 9 < 10 /\
  forall fuel, chunk_text fuel stalling_text 10 9 = None.
Proof.
  repeat split; try lia; [discriminate|].
  intros fuel. apply stalling_loop.
Qed.

(** C8. A configuration with [overlap >= chunk_size] is expected to be
    rejected.  [chunk_text] has no such check: for every non-empty text
    and every positive [chunk_size <= overlap] the loop never leaves
    the text, so the call returns nothing, neither a list nor a
    failure. *)
Theorem chunk_text_never_returns_when_overlap_ge_size
    (t : text) (chunk_size overlap : Z) (fuel : nat) :
  t <> [] -> 0 < chunk_size -> chunk_size <= overlap ->
  chunk_text fuel t chunk_size overlap = None.
Proof.
  intros Ht Hcs Hov. unfold chunk_text.
  destruct t as [|c t']; [congruence|].
  apply chunk_loop_stuck; (lia || assumption).
Qed.

Lemma chunk_text_never_returns_witness :
txt "a" <> [] /\ 0 < 1 /\ 1 <= 1 /\ chunk_text 100 (txt "a") 1 1 = None.
Proof.
split_and!; [discriminate | lia | lia |].
apply chunk_text_never_returns_when_overlap_ge_size;
  [discriminate | lia | lia].
Defined.
End SegmenterClaims.

Section FittingText.
Import Py Segmenter SegmenterSpec.

(** While the text fits in one window, every pass emits the suffix from
    [start] and moves [start] forward by [chunk_size - overlap]. *)
Lemma chunk_loop_fitting (t : text) (cs ov : Z) :
  len t <= cs -> 0 < cs - ov ->
  forall (m fuel : nat) (start : Z) (chunks : list text),
    0 <= start -> (m <= fuel)%nat ->
    len t <= start + Z.of_nat m * (cs - ov) ->
    (forall j, (j < m)%nat -> start + Z.of_nat j * (cs - ov) < len t) ->
    chunk_loop fuel t cs ov start chunks =
    Some (chunks ++ map (fun j => strip (slice_from t
                                  (start + Z.of_nat j * (cs - ov))))
                        (seq 0 m)).
Proof.
  intros Hfit Hst.
  induction m as [|m IH]; intros fuel start chunks Hs Hf Hend Hin.
  - simpl. rewrite app_nil_r. apply chunk_loop_done. lia.
  - destruct fuel as [|fuel]; [lia|].
    pose proof (Hin O ltac:(lia)) as H0. simpl in H0.
    cbn [chunk_loop].
    destruct (Z.ltb_spec start (len t)); [|lia].
    rewrite window_reaching_end by lia.
    rewrite (IH fuel (start + cs - ov) _); try lia.
    + f_equal. rewrite <- app_assoc. f_equal. cbn [seq map app].
      f_equal; [do 2 f_equal; lia|].
      rewrite <- seq_shift, map_map. apply List.map_ext. intros j.
      do 2 f_equal. lia.
    + intros j Hj. specialize (Hin (S j) ltac:(lia)). lia.
Qed.

(** C10. A non-empty text no longer than [chunk_size], with
    [0 <= overlap < chunk_size], is emitted whole (trimmed) as the first
    chunk, followed by the trimmed suffixes [text[i * stride:]],
    [stride = chunk_size - overlap], for every [i >= 1] with
    [i * stride < len(text)]; there is more than one chunk exactly when
    [stride < len(text)]. *)
Theorem chunk_text_fitting_text_repeats_tail
    (t : text) (chunk_size overlap : Z) (fuel : nat) :
  t <> [] -> len t <= chunk_size -> 0 <= overlap < chunk_size ->
  let stride := chunk_size - overlap in
  let count := Z.to_nat ((len t + stride - 1) / stride) in
  (count <= fuel)%nat ->
  exists chunks,
    chunk_text fuel t chunk_size overlap = Some chunks
    /\ chunks = map (fun i => strip (slice_from t (Z.of_nat i * stride)))
                    (seq 0 count)
    /\ chunks !! O = Some (strip t)
    /\ (forall i, (Z.of_nat i * stride < len t <-> (i < length chunks)%nat))
    /\ (stride < len t <-> (2 <= length chunks)%nat).
Proof.
  intros Ht Hfit Hov stride count Hfuel.
  assert (0 < len t) as Hlen.
  { pose proof (len_nonneg t). pose proof (len_nil_iff t).
    destruct (Z.eq_dec (len t) 0); [tauto | lia]. }
  assert (0 < stride) as Hst by (unfold stride; lia).
  set (q := (len t + stride - 1) / stride) in *.
  assert (stride * q <= len t + stride - 1 < stride * (q + 1)) as Hq.
  { pose proof (Z.mul_div_le (len t + stride - 1) stride Hst).
    pose proof (Z.mul_succ_div_gt (len t + stride - 1) stride Hst).
    unfold q. lia. }
  assert (1 <= q) as Hq1 by nia.
  assert (Z.of_nat count = q) as Hcq by (unfold count; lia).
  assert (forall i : nat, Z.of_nat i * stride < len t <-> (i < count)%nat)
    as Hcount by (intros i; split; intros H; nia).
  eexists. split; [|split; [reflexivity|]].
  - unfold chunk_text. destruct t as [|c t']; [congruence|].
    rewrite (chunk_loop_fitting _ chunk_size overlap Hfit Hst count fuel 0 []).
    + reflexivity.
    + lia.
    + exact Hfuel.
    + fold stride. nia.
    + intros j Hj. apply Hcount in Hj. fold stride. lia.
  - rewrite length_map, length_seq. repeat split.
    + destruct count as [|count'] eqn:E; [lia|].
      cbn [seq map]. simpl Z.of_nat. rewrite Z.mul_0_l, slice_from_0.
      reflexivity.
    + apply Hcount.
    + apply Hcount.
    + intros H. apply (Hcount 1%nat). lia.
    + intros H. apply (Hcount 1%nat) in H. lia.
Qed.
End FittingText.

Section BreakPoint.
Import Py Segmenter SegmenterSpec.

Lemma rfind_from_spec (c : ascii) (s : list ascii) :
  forall i acc,
    let r := rfind_from c s i acc in
    (r = acc /\ forall k, s !! k <> Some c)
    \/ (i <= r /\ s !! Z.to_nat (r - i) = Some c
        /\ forall k, (Z.to_nat (r - i) < k)%nat -> s !! k <> Some c).
Proof.
  induction s as [|x s IH]; intros i acc; cbn [rfind_from].
  - left. split; [reflexivity|]. intros k. now rewrite lookup_nil.
  - destruct (Ascii.eqb_spec x c) as [->|Hne].
    + destruct (IH (i + 1) i) as [[Hr Hno]|(Hle & Hat & Hlast)].
      * right. rewrite Hr. replace (i - i) with 0 by lia.
        split; [lia|]. split; [reflexivity|].
        intros [|k] Hk; [lia|]. apply Hno.
      * right. split; [lia|].
        replace (Z.to_nat (rfind_from c s (i + 1) i - i))
          with (S (Z.to_nat (rfind_from c s (i + 1) i - (i + 1)))) by lia.
        split; [exact Hat|].
        intros [|k] Hk; [lia|]. apply Hlast. lia.
    + destruct (IH (i + 1) acc) as [[Hr Hno]|(Hle & Hat & Hlast)].
      * left. split; [exact Hr|].
        intros [|k]; [simpl; congruence | apply Hno].
      * right. split; [lia|].
        replace (Z.to_nat (rfind_from c s (i + 1) acc - i))
          with (S (Z.to_nat (rfind_from c s (i + 1) acc - (i + 1)))) by lia.
        split; [exact Hat|].
        intros [|k] Hk; [lia|]. apply Hlast. lia.
Qed.

Lemma rfind_spec (c : ascii) (s : list ascii) :
  (rfind c s = -1 /\ forall k, s !! k <> Some c)
  \/ (0 <= rfind c s /\ s !! Z.to_nat (rfind c s) = Some c
      /\ forall k, (Z.to_nat (rfind c s) < k)%nat -> s !! k <> Some c).
Proof.
  unfold rfind. destruct (rfind_from_spec c s 0 (-1)) as [H|(H1 & H2 & H3)].
  - now left.
  - right. rewrite Z.sub_0_r in *. auto.
Qed.

(** [max] of the three searches is the last boundary character of any
    kind. *)
Lemma break_point_last_boundary (chunk : text) :
  last_boundary chunk (break_point chunk).
Proof.
  unfold last_boundary, break_point, boundary.
  destruct (rfind_spec period chunk) as [[Hp Hpn]|(Hp & Hpa & Hpl)],
           (rfind_spec newline chunk) as [[Hn Hnn]|(Hn & Hna & Hnl)],
           (rfind_spec space chunk) as [[Hs Hsn]|(Hs & Hsa & Hsl)].
  1: { left. split; [lia|]. intros k c Hk [->| [->| ->]]; naive_solver. }
  all: right; split; [lia|]; split.
  all: try (intros k c Hk Hc [->| [->| ->]];
            [apply (Hpn k) || apply (Hpl k)
            |apply (Hnn k) || apply (Hnl k)
            |apply (Hsn k) || apply (Hsl k)]; (assumption || lia)).
  all: set (p := rfind period chunk) in *; set (n := rfind newline chunk) in *;
       set (b := rfind space chunk) in *.
  all: destruct (Z.max_spec (Z.max p n) b) as [[? ->]|[? ->]];
       try destruct (Z.max_spec p n) as [[? ->]|[? ->]];
       try (exfalso; lia); eauto.
Qed.
End BreakPoint.

Section WindowRule.
Import Py Segmenter SegmenterSpec.

(** C5, as worded, fails twice.  In the first window of
    ["ab.defgh ijklmnop"] (size 10) the full stop at index 2 does not win
    over the blank at index 8: the code cuts after the blank, the worded
    rule keeps the whole window.  In the first window of
    ["abcdefg hijklmn"] the blank sits at index 7, exactly 70% of 10: the
    code keeps the whole window, the worded rule cuts. *)
Lemma window_rule_as_worded_refuted :
  (10 < len (txt "ab.defgh ijklmnop")
   /\ window (txt "ab.defgh ijklmnop") 10 0 = (txt "ab.defgh ", 9)
   /\ documented_window (txt "ab.defgh ijklmnop") 10 0
      = (txt "ab.defgh i", 10))
  /\ (10 < len (txt "abcdefg hijklmn")
      /\ window (txt "abcdefg hijklmn") 10 0 = (txt "abcdefg hi", 10)
      /\ documented_window (txt "abcdefg hijklmn") 10 0
         = (txt "abcdefg ", 8)).
Proof. vm_compute. repeat split; intros; congruence. Qed.

(** C5, amended.  In a window that does not reach the end of the text
    the break point is the last full stop, newline or blank of the
    window, whichever kind comes last; the window is cut just after it
    exactly when [break_point > chunk_size * 0.7] holds in binary64
    arithmetic, and kept whole otherwise. *)
Theorem window_breaks_at_last_boundary_past_threshold
    (t : text) (chunk_size start : Z) :
  start + chunk_size < len t ->
  let chunk := slice t start (start + chunk_size) in
  exists bp,
    last_boundary chunk bp
    /\ (past_threshold bp chunk_size = true ->
        window t chunk_size start = (slice_to chunk (bp + 1), start + bp + 1))
    /\ (past_threshold bp chunk_size = false ->
        window t chunk_size start = (chunk, start + chunk_size)).
Proof.
  intros Hend chunk. exists (break_point chunk).
  split; [apply break_point_last_boundary|].
  unfold window. fold chunk.
  destruct (Z.ltb_spec (start + chunk_size) (len t)); [|lia].
  split; intros ->; reflexivity.
Qed.

Lemma window_breaks_witness :
  10 < len (txt "ab.defgh ijklmnop")
  /\ exists bp,
       last_boundary (slice (txt "ab.defgh ijklmnop") 0 10) bp
       /\ (past_threshold bp 10 = true ->
           window (txt "ab.defgh ijklmnop") 10 0
           = (slice_to (slice (txt "ab.defgh ijklmnop") 0 10) (bp + 1),
              0 + bp + 1))
       /\ (past_threshold bp 10 = false ->
           window (txt "ab.defgh ijklmnop") 10 0
           = (slice (txt "ab.defgh ijklmnop") 0 10, 0 + 10)).
Proof.
  split; [vm_compute; reflexivity|].
  apply (window_breaks_at_last_boundary_past_threshold
           (txt "ab.defgh ijklmnop") 10 0).
  vm_compute; reflexivity.
Defined.

(** Where the binary64 product brackets 70% of [chunk_size], a break
    point strictly past 70% is taken and one short of 70% is not; at
    exactly 70% the rounding of the product decides. *)
Lemma past_threshold_brackets (bp chunk_size : Z) :
  threshold_brackets chunk_size = true ->
  (7 * chunk_size < 10 * bp -> past_threshold bp chunk_size = true)
  /\ (past_threshold bp chunk_size = true -> 7 * chunk_size <= 10 * bp).
Proof.
  unfold threshold_brackets, past_threshold.
  destruct (F64.mul _ _) as [| | |[|] m e]; try discriminate.
  intros H. apply andb_prop in H as [H Hlo]. apply andb_prop in H as [He Hhi].
  apply Z.ltb_lt in He, Hhi. apply Z.leb_le in Hlo.
  cbn [F64.int_gt]. destruct (Z.leb_spec 0 e); [lia|].
  assert (0 < 2 ^ (- e)) as Hpow by (apply Z.pow_pos_nonneg; lia).
  set (P := 2 ^ (- e)) in *.
  pose proof (Z.mul_succ_div_gt (7 * chunk_size + 9) 10 ltac:(lia)) as Hceil.
  pose proof (Z.mul_div_le (7 * chunk_size) 10 ltac:(lia)) as Hfloor.
  split; intros Hb.
  - apply Z.ltb_lt.
    assert (7 * chunk_size / 10 + 1 <= bp) as Hc by lia. nia.
  - apply Z.ltb_lt in Hb.
    assert ((7 * chunk_size + 9) / 10 - 1 < bp) as Hc by nia. lia.
Qed.

Lemma threshold_brackets_upto_4096 :
  forallb threshold_brackets (map Z.of_nat (seq 1 4096)) = true.
Proof. vm_compute. reflexivity. Qed.

Lemma past_threshold_about_70_percent (bp chunk_size : Z) :
  0 < chunk_size <= 4096 ->
  (7 * chunk_size < 10 * bp -> past_threshold bp chunk_size = true)
  /\ (past_threshold bp chunk_size = true -> 7 * chunk_size <= 10 * bp).
Proof.
  intros Hcs. apply past_threshold_brackets.
  pose proof threshold_brackets_upto_4096 as H.
  rewrite forallb_forall in H. apply H.
  apply in_map_iff. exists (Z.to_nat chunk_size). split; [lia|].
  apply in_seq. lia.
Qed.
End WindowRule.

(** ** The message bus *)

Section BusFacts.
Import Bus.

Lemma enqueue_lookup (r : string) (l : loc) (q : gmap string (list loc)) :
  enqueue r l q !! r = Some (default [] (q !! r) ++ [l]).
Proof. unfold enqueue. apply lookup_insert_eq. Qed.

(** Sending a well-formed message succeeds, appends a reference to it at
    the tail of the receiver's queue and leaves the three drafted fields
    of every message as they were. *)
Lemma send_envelope (r : string) (σ : state) (l : loc) :
  envelope_for r σ l ->
  exists σ',
    send_mcp_message l σ = (true, σ')
    /\ message_queues σ' = enqueue r l (message_queues σ)
    /\ (forall r' l', envelope_for r' σ l' -> envelope_for r' σ' l')
    /\ (forall l', draft_of σ' l' = draft_of σ l').
Proof.
  intros (m & Hl & Hr & Hs & Hp). unfold send_mcp_message. rewrite Hl.
  assert (forallb (has_field m) required_fields = true) as ->.
  { unfold required_fields, has_field. cbn [forallb].
    rewrite !bool_decide_eq_true_2; [reflexivity|..]; eauto. }
  cbn zeta.
  rewrite lookup_insert_ne by discriminate.
  rewrite lookup_insert_ne by discriminate.
  rewrite Hr. eexists. split; [reflexivity|]. cbn [message_queues heap].
  split; [reflexivity|]. split.
  - intros r' l' (m' & Hl' & Hr' & Hs' & Hp').
    destruct (decide (l' = l)) as [->|Hne].
    + rewrite Hl in Hl'. injection Hl' as <-.
      eexists. split; [apply lookup_insert_eq|].
      rewrite !lookup_insert_ne by discriminate. split_and!; assumption.
    + exists m'. cbn [heap]. rewrite lookup_insert_ne by congruence.
      split_and!; assumption.
  - intros l'. unfold draft_of. cbn [heap].
    destruct (decide (l' = l)) as [->|Hne].
    + rewrite lookup_insert_eq, Hl.
      rewrite !lookup_insert_ne by discriminate. reflexivity.
    + rewrite lookup_insert_ne by congruence. reflexivity.
Qed.

(** Receiving pops the head of a non-empty queue. *)
Lemma receive_head (r : string) (σ : state) (l : loc) (q : list loc) :
  message_queues σ !! r = Some (l :: q) ->
  envelope_for r σ l ->
  receive_mcp_message r σ
  = (Some l, mkState (heap σ) (<[r := q]> (message_queues σ)) (clock σ)).
Proof.
  intros Hq (m & Hl & _ & Hs & _). unfold receive_mcp_message.
  rewrite Hq, Hl. unfold has_field. now rewrite bool_decide_eq_true_2.
Qed.

Lemma receive_nothing (r : string) (σ : state) :
  peek_mcp_message r σ = O -> receive_mcp_message r σ = (None, σ).
Proof.
  unfold peek_mcp_message, receive_mcp_message.
  destruct (message_queues σ !! r) as [[|l q]|]; simpl; (discriminate || auto).
Qed.

(** C7. With no message pending for [R], sending the envelopes at
    [l1], [l2], [l3] to [R] and then receiving four times returns [l1],
    [l2], [l3] in that order and then nothing; each receive takes the
    returned envelope off the queue, and the envelopes still carry the
    sender, receiver and payload they were sent with. *)
Theorem bus_delivers_in_fifo_order
    (R : string) (σ : state) (l1 l2 l3 : loc) :
  peek_mcp_message R σ = O ->
  envelope_for R σ l1 -> envelope_for R σ l2 -> envelope_for R σ l3 ->
  exists σ1 σ2 σ3 σ4 σ5 σ6,
    send_mcp_message l1 σ = (true, σ1)
    /\ send_mcp_message l2 σ1 = (true, σ2)
    /\ send_mcp_message l3 σ2 = (true, σ3)
    /\ peek_mcp_message R σ3 = 3%nat
    /\ receive_mcp_message R σ3 = (Some l1, σ4)
    /\ peek_mcp_message R σ4 = 2%nat
    /\ receive_mcp_message R σ4 = (Some l2, σ5)
    /\ peek_mcp_message R σ5 = 1%nat
    /\ receive_mcp_message R σ5 = (Some l3, σ6)
    /\ peek_mcp_message R σ6 = O
    /\ receive_mcp_message R σ6 = (None, σ6)
    /\ (forall l, draft_of σ6 l = draft_of σ l).
Proof.
  intros Hempty E1 E2 E3.
  assert (default [] (message_queues σ !! R) = []) as Hq0.
  { unfold peek_mcp_message in Hempty.
    destruct (default [] (message_queues σ !! R)); [reflexivity|discriminate]. }
  destruct (send_envelope R σ l1 E1) as (σ1 & S1 & Q1 & P1 & D1).
  destruct (send_envelope R σ1 l2 (P1 _ _ E2)) as (σ2 & S2 & Q2 & P2 & D2).
  destruct (send_envelope R σ2 l3 (P2 _ _ (P1 _ _ E3))) as (σ3 & S3 & Q3 & P3 & D3).
  assert (message_queues σ3 !! R = Some [l1; l2; l3]) as Hq3.
  { rewrite Q3, enqueue_lookup, Q2, enqueue_lookup, Q1, enqueue_lookup, Hq0.
    reflexivity. }
  set (σ4 := mkState (heap σ3) (<[R := [l2; l3]]> (message_queues σ3)) (clock σ3)).
  set (σ5 := mkState (heap σ4) (<[R := [l3]]> (message_queues σ4)) (clock σ4)).
  set (σ6 := mkState (heap σ5) (<[R := []]> (message_queues σ5)) (clock σ5)).
  assert (forall l, envelope_for R σ l -> envelope_for R σ3 l) as P by auto.
  exists σ1, σ2, σ3, σ4, σ5, σ6.
  repeat match goal with |- _ /\ _ => split end; try assumption.
  - unfold peek_mcp_message. now rewrite Hq3.
  - apply receive_head; auto.
  - unfold peek_mcp_message, σ4. cbn. now rewrite lookup_insert_eq.
  - apply receive_head; [apply lookup_insert_eq|]. apply (P l2 E2).
  - unfold peek_mcp_message, σ5. cbn. now rewrite lookup_insert_eq.
  - apply receive_head; [apply lookup_insert_eq|]. apply (P l3 E3).
  - unfold peek_mcp_message, σ6. cbn. now rewrite lookup_insert_eq.
  - apply receive_nothing. unfold peek_mcp_message, σ6. cbn.
    now rewrite lookup_insert_eq.
  - intros l. change (draft_of σ6 l) with (draft_of σ3 l).
    now rewrite D3, D2, D1.
Qed.
End BusFacts.

(** ** The vector store *)

Section StoreFacts.
Import Faiss VectorStore.


Lemma save_vector_store_complete (st : store) (dk : disk) (idx : IndexFlatL2) :
  vector_index st = Some idx ->
  save_vector_store st dk
  = mkDisk (Some (Some idx))
           (Some (Pickled (Some (stored_chunks st)) (Some (document_mapping st)))).
Proof. intros H. unfold save_vector_store, save_writes. now rewrite H. Qed.

Lemma initialize_after_save (st : store) (dk : disk) (idx : IndexFlatL2) :
  vector_index st = Some idx ->
  initialize_vector_store (save_vector_store st dk) = st.
Proof.
  intros H. rewrite (save_vector_store_complete st dk idx H).
  destruct st as [vi c ds]. cbn in *. now subst.
Qed.

Lemma saved_snapshot_aligned (st : store) (dk : disk) :
  aligned st -> snapshot_aligned dk -> snapshot_aligned (save_vector_store st dk).
Proof.
  intros [H1 H2] Hdk. destruct (vector_index st) as [idx|] eqn:E.
  - rewrite (save_vector_store_complete st dk idx E).
    intros idx' c ds [= <-] [= <- <-]. cbn in H2. rewrite E in H2. auto.
  - unfold save_vector_store, save_writes. now rewrite E.
Qed.



Lemma ensure_initialized_some (st : store) (dk : disk) :
  is_Some (vector_index (ensure_initialized st dk)).
Proof.
  unfold ensure_initialized. destruct (vector_index st) eqn:E.
  - rewrite E. eauto.
  - unfold initialize_vector_store.
    destruct (index_file dk) as [[idx|]|];
      destruct (embeddings_file dk) as [[|[c|] [ds|]]|]; cbn; eauto.
Qed.

(** C3, as worded, fails: when the second save of the example stops
    after the index file, the index file holds two vectors and the
    metadata file one chunk, and the pair is loaded as it is. *)
Lemma initialize_loads_mismatched_pair :
  (exists idx chunks documents,
     index_file torn_snapshot = Some (Some idx)
     /\ embeddings_file torn_snapshot
        = Some (Pickled (Some chunks) (Some documents))
     /\ ntotal idx = 2%nat /\ length chunks = 1%nat
     /\ initialize_vector_store torn_snapshot = mkStore (Some idx) chunks documents)
  /\ initialize_vector_store torn_snapshot <> fresh_store.
Proof.
  split.
  - do 3 eexists. vm_compute. repeat split; reflexivity.
  - vm_compute. discriminate.
Qed.

(** C3, amended.  [initialize_vector_store] loads the pair whenever both
    files exist, the index file is readable and the metadata file
    unpickles to a dictionary with both keys, without comparing any
    lengths; in every other case it starts from an empty index of
    dimension 384 and empty lists. *)
Theorem initialize_loads_without_length_check (dk : disk) :
  (forall idx chunks documents,
     index_file dk = Some (Some idx) ->
     embeddings_file dk = Some (Pickled (Some chunks) (Some documents)) ->
     initialize_vector_store dk = mkStore (Some idx) chunks documents)
  /\ ((index_file dk = None \/ index_file dk = Some None
       \/ embeddings_file dk = None \/ embeddings_file dk = Some Unreadable
       \/ (exists documents, embeddings_file dk = Some (Pickled None documents))
       \/ (exists chunks, embeddings_file dk = Some (Pickled chunks None))) ->
      initialize_vector_store dk = mkStore (Some (mkIndex 384 [])) [] []).
Proof.
  unfold initialize_vector_store. split.
  - intros idx c ds -> ->. reflexivity.
  - intros H.
    destruct (index_file dk) as [[idx|]|];
      destruct (embeddings_file dk) as [[|[c|] [ds|]]|]; try reflexivity.
    destruct H as [H|[H|[H|[H|[[? H]|[? H]]]]]]; discriminate.
Qed.

(** C4, as worded, fails: in the example the files were aligned before
    the second save and the store in memory is aligned, yet stopping the
    save after the index file leaves a pair that is not. *)
Lemma interrupted_save_leaves_mismatched_pair :
  snapshot_aligned one_chunk.2
  /\ aligned two_chunks.1.2
  /\ ~ snapshot_aligned (save_interrupted 2 two_chunks.1.2 one_chunk.2).
Proof.
  split; [|split].
  - intros idx c ds. vm_compute. intros [= <-] [= <- <-]. split; reflexivity.
  - split; vm_compute; reflexivity.
  - intros H.
    destruct (H (mkIndex dimension
                   [replicate dimension 1; replicate dimension 2])
                ["a"%string] ["a.txt"%string]) as [_ Habs];
      try (vm_compute; reflexivity).
    vm_compute in Habs. discriminate.
Qed.

(** C4, amended.  [save_vector_store] uses no temporary file: it writes
    the index file in place and then the metadata file in place.  A save
    stopped after [n] of its four writes leaves the files listed below;
    a save that completes leaves a pair that loads back to the store in
    memory and is aligned whenever that store is. *)
Theorem save_writes_both_files_in_place
    (st : store) (dk : disk) (idx : IndexFlatL2) :
  vector_index st = Some idx ->
  save_interrupted 0 st dk = dk
  /\ save_interrupted 1 st dk = mkDisk (Some None) (embeddings_file dk)
  /\ save_interrupted 2 st dk = mkDisk (Some (Some idx)) (embeddings_file dk)
  /\ save_interrupted 3 st dk = mkDisk (Some (Some idx)) (Some Unreadable)
  /\ (forall n, (4 <= n)%nat ->
        save_interrupted n st dk = save_vector_store st dk)
  /\ initialize_vector_store (save_vector_store st dk) = st
  /\ (aligned st -> snapshot_aligned dk ->
      snapshot_aligned (save_vector_store st dk)).
Proof.
  intros H. unfold save_interrupted, save_writes. rewrite H.
  repeat match goal with |- _ /\ _ => split end; try reflexivity.
  - intros n Hn. rewrite take_ge by (simpl; lia).
    unfold save_vector_store, save_writes. now rewrite H.
  - now apply (initialize_after_save st dk idx).
  - apply saved_snapshot_aligned.
Qed.
End StoreFacts.

Section Alignment.
Import Faiss VectorStore.
Variable create_embeddings : list string -> option (list vec).



(** What one call of [store_embeddings] does to the store it finds once
    the index is there. *)
Lemma store_embeddings_cases (chunks : list string) (doc : string)
    (st : store) (dk : disk) :
  let st1 := ensure_initialized st dk in
  let r := store_embeddings create_embeddings chunks doc st dk in
  (r = (false, st, dk) /\ chunks = [])
  \/ (r = (false, st1, dk) /\ chunks <> [])
  \/ (exists idx idx' x,
        chunks <> []
        /\ create_embeddings chunks = Some x
        /\ vector_index st1 = Some idx /\ add x idx = Some idx'
        /\ r = (true,
                mkStore (Some idx') (stored_chunks st1 ++ chunks)
                  (document_mapping st1 ++ replicate (length chunks) doc),
                save_vector_store
                  (mkStore (Some idx') (stored_chunks st1 ++ chunks)
                     (document_mapping st1 ++ replicate (length chunks) doc))
                  dk)).
Proof.
  intros st1 r. subst r. unfold store_embeddings. fold st1.
  destruct chunks as [|c chunks]; [left; auto|].
  destruct (create_embeddings (c :: chunks)) as [x|] eqn:Ex;
    [|right; left; split; [reflexivity|discriminate]].
  destruct (vector_index st1) as [idx|] eqn:Ei; cbn [mbind option_bind].
  - destruct (add x idx) as [idx'|] eqn:Ea.
    + right; right. exists idx, idx', x. split; [discriminate|]. auto.
    + right; left. split; [reflexivity|discriminate].
  - right; left. split; [reflexivity|discriminate].
Qed.
Hypothesis one_vector_per_text :
  forall texts x, create_embeddings texts = Some x -> length x = length texts.



End Alignment.

(** ** The flat index returns the nearest vectors, in order *)

Section Ranking.
Import Faiss VectorStore.

Lemma insert_perm (h : Z * nat) (l : list (Z * nat)) : insert h l ≡ₚ h :: l.
Proof.
  induction l as [|h' l IH]; cbn [insert]; [reflexivity|].
  destruct (h.1 <=? h'.1); [reflexivity|].
  rewrite IH. apply Permutation_swap.
Qed.

Lemma sort_perm (l : list (Z * nat)) : sort l ≡ₚ l.
Proof.
  induction l as [|h l IH]; cbn [sort]; [reflexivity|].
  now rewrite insert_perm, IH.
Qed.

(** Inserting a hit whose position is lower than every position of a
    ranked list keeps the list ranked: at equal distance it goes in
    front. *)
Lemma insert_ranked (h : Z * nat) (l : list (Z * nat)) :
  StronglySorted ranks_before l ->
  Forall (fun x => (h.2 < x.2)%nat) l ->
  StronglySorted ranks_before (insert h l).
Proof.
  induction l as [|h' l IH]; cbn [insert]; intros Hs Hlt.
  - repeat constructor.
  - apply StronglySorted_cons in Hs as [Hh' Hs].
    apply Forall_cons in Hlt as [Hlt' Hlt].
    destruct (Z.leb_spec h.1 h'.1) as [Hle|Hgt].
    + apply StronglySorted_cons. split.
      * constructor.
        -- unfold ranks_before. lia.
        -- rewrite Forall_forall in *. intros x Hx.
           specialize (Hh' x Hx). specialize (Hlt x Hx).
           unfold ranks_before in *. lia.
      * apply StronglySorted_cons. auto.
    + apply StronglySorted_cons. split; [|auto].
      rewrite insert_perm. constructor; [|assumption].
      unfold ranks_before. lia.
Qed.

Lemma sort_ranked (l : list (Z * nat)) :
  StronglySorted (fun a b => (a.2 < b.2)%nat) l ->
  StronglySorted ranks_before (sort l).
Proof.
  induction l as [|h l IH]; cbn [sort]; intros Hs; [constructor|].
  apply StronglySorted_cons in Hs as [Hh Hs].
  apply insert_ranked; [auto|]. now rewrite sort_perm.
Qed.

Lemma scan_elem (q : vec) (x : list vec) (i : nat) (h : Z * nat) :
  h ∈ scan q x i <->
  exists j v, x !! j = Some v /\ h = (L2sqr q v, (i + j)%nat).
Proof.
  revert i. induction x as [|v x IH]; intros i; cbn [scan].
  - split; [intros H; inversion H | intros (j & v & H & _); inversion H].
  - rewrite elem_of_cons, IH. split.
    + intros [->|(j & v' & Hj & ->)].
      * exists O, v. split; [reflexivity|]. f_equal. lia.
      * exists (S j), v'. split; [exact Hj|]. f_equal. lia.
    + intros ([|j] & v' & Hj & ->).
      * left. injection Hj as ->. f_equal. lia.
      * right. exists j, v'. split; [exact Hj|]. f_equal. lia.
Qed.

Lemma scan_positions (q : vec) (x : list vec) (i : nat) :
  StronglySorted (fun a b => (a.2 < b.2)%nat) (scan q x i).
Proof.
  revert i. induction x as [|v x IH]; intros i; cbn [scan]; [constructor|].
  apply StronglySorted_cons. split; [|apply IH].
  apply Forall_forall. intros h Hh.
  apply scan_elem in Hh as (j & v' & _ & ->). cbn. lia.
Qed.

Lemma length_scan (q : vec) (x : list vec) (i : nat) :
  length (scan q x i) = length x.
Proof. revert i. induction x; intros i; cbn; [|rewrite IHx]; reflexivity. Qed.

Lemma ranked_ranked (idx : IndexFlatL2) (q : vec) :
  StronglySorted ranks_before (ranked idx q).
Proof. apply sort_ranked, scan_positions. Qed.

Lemma length_ranked (idx : IndexFlatL2) (q : vec) :
  length (ranked idx q) = ntotal idx.
Proof. unfold ranked. now rewrite sort_perm, length_scan. Qed.

Lemma ranked_elem (idx : IndexFlatL2) (q : vec) (h : Z * nat) :
  h ∈ ranked idx q <-> exists v, xb idx !! h.2 = Some v /\ h.1 = L2sqr q v.
Proof.
  unfold ranked. rewrite sort_perm, scan_elem. split.
  - intros (j & v & Hj & ->). exists v. auto.
  - intros (v & Hv & Hd). exists h.2, v. split; [exact Hv|].
    destruct h; cbn in *. now subst.
Qed.
End Ranking.

Section Retrieval.
Import Faiss VectorStore.
Variable create_embeddings : list string -> option (list vec).

Lemma py_index_nat {A} (l : list A) (i : nat) :
  (i < length l)%nat -> py_index l (Z.of_nat i) = l !! i.
Proof.
  intros H. unfold py_index, Py.len.
  destruct (Z.leb_spec 0 (Z.of_nat i)); [|lia].
  destruct (Z.ltb_spec (Z.of_nat i) (Z.of_nat (length l))); [|lia].
  cbn. now rewrite Nat2Z.id.
Qed.

(** Labels that are positions of the store are all collected, in order,
    and the logging loop finds a document for each. *)
Lemma collect_hits (Q : Z * nat -> Prop) (chunks documents : list string)
    (hits : list (Z * nat)) :
  length chunks = length documents ->
  Forall (fun h => (h.2 < length chunks)%nat /\ Q h) hits ->
  exists results,
    collect chunks documents (map (fun h => Z.of_nat h.2) hits) = Some results
    /\ Forall2 (fun h r => chunks !! h.2 = Some r.1
                           /\ documents !! h.2 = Some r.2 /\ Q h)
               hits results.
Proof.
  intros Hlen. induction hits as [|h hits IH]; intros Hall.
  - exists []. split; [reflexivity | constructor].
  - apply Forall_cons in Hall as [[Hh HQ] Hall].
    destruct (IH Hall) as (rest & Hrest & Hrel).
    destruct (lookup_lt_is_Some_2 chunks h.2 Hh) as [c Hc].
    destruct (lookup_lt_is_Some_2 documents h.2 ltac:(lia)) as [doc Hd].
    exists ((c, doc) :: rest). cbn [map collect].
    destruct (Z.ltb_spec (Z.of_nat h.2) (Py.len chunks));
      [|unfold Py.len in *; lia].
    rewrite !py_index_nat by lia. rewrite Hc, Hd. cbn. rewrite Hrest. cbn.
    split; [reflexivity|]. constructor; auto.
Qed.

Lemma log_ranks_hits (documents : list string) (hits : list (Z * nat)) :
  Forall (fun h => (h.2 < length documents)%nat) hits ->
  log_ranks documents (map (fun h => Z.of_nat h.2) hits) = Some tt.
Proof.
  intros Hall. unfold log_ranks.
  assert (forallb (fun i => bool_decide (is_Some (py_index documents i)))
                  (map (fun h => Z.of_nat h.2) hits) = true) as ->;
    [|reflexivity].
  apply forallb_forall. intros i Hi. apply in_map_iff in Hi as (h & <- & Hh).
  rewrite Forall_forall in Hall. apply list_elem_of_In in Hh.
  apply bool_decide_eq_true_2. rewrite py_index_nat by auto.
  apply lookup_lt_is_Some_2. auto.
Qed.
(** With [Faiss.search] for the search of the index,
    [retrieve_chunks_over] is [retrieve_chunks]. *)
Lemma retrieve_chunks_over_search (query : string) (k : Z)
    (st : store) (dk : disk) (b : Bus.state) :
  retrieve_chunks_over create_embeddings search query k st dk b
  = retrieve_chunks create_embeddings query k st dk b.
Proof. reflexivity. Qed.


End Retrieval.

(** ** What [retrieve_chunks] makes of the labels of the index *)

Section RetrievalOverIndex.
Import Faiss VectorStore.
Variable create_embeddings : list string -> option (list vec).
Variable index_search : IndexFlatL2 -> vec -> Z -> option (list Z).

End RetrievalOverIndex.

Section ZeroResults.
Import Faiss VectorStore.
Variable create_embeddings : list string -> option (list vec).

Lemma search_rejects_nonpositive_k (idx : IndexFlatL2) (q : vec) (k : Z) :
  k <= 0 -> search idx q k = None.
Proof.
  intros Hk. unfold search. destruct (negb _); [reflexivity|].
  destruct (Z.leb_spec k 0); [reflexivity | lia].
Qed.

(** C9, as worded, fails: asked for zero chunks of the one-chunk store
    of the example, [retrieve_chunks] raises nothing and returns the
    empty list. *)
Lemma retrieve_chunks_zero_k_not_refused :
  (retrieve_chunks length_embedder "q" 0 one_chunk.1.2 one_chunk.2 Bus.empty).1.1
  = Returned []
  /\ (retrieve_chunks length_embedder "q" 0 one_chunk.1.2 one_chunk.2 Bus.empty).1.1
     <> Raised "InvalidConfiguration".
Proof. split; [vm_compute; reflexivity | vm_compute; discriminate]. Qed.

(** C9, amended.  [retrieve_chunks] called with [top_k = 0] raises no
    condition: whatever the store holds, it returns the empty list. *)
Theorem retrieve_chunks_zero_k_returns_empty
    (query : string) (st : store) (dk : disk) (b : Bus.state) :
  (retrieve_chunks create_embeddings query 0 st dk b).1.1 = Returned [].
Proof.
  unfold retrieve_chunks.
  destruct (stored_chunks (ensure_initialized st dk)) as [|c cs] eqn:Ec;
    [reflexivity|].
  assert (ranked_chunks create_embeddings query 0 (ensure_initialized st dk)
          = None) as ->; [|reflexivity].
  unfold ranked_chunks.
  destruct (create_embeddings [query]) as [[|q x]|]; cbn; try reflexivity.
  destruct (vector_index (ensure_initialized st dk)) as [idx|]; cbn;
    [|reflexivity].
  rewrite search_rejects_nonpositive_k; [reflexivity|].
  pose proof (len_nonneg (stored_chunks (ensure_initialized st dk))). lia.
Qed.
End ZeroResults.

Section Misalignment.
Import Faiss VectorStore.

End Misalignment.

(** ** The theorems at concrete inputs *)

Section Instances.
Import Py Segmenter SegmenterSpec Faiss VectorStore.

Lemma chunk_text_fitting_text_witness :
  txt " hello world " <> []
  /\ len (txt " hello world ") <= 20
  /\ 0 <= 15 < 20
  /\ chunk_text 10 (txt " hello world ") 20 15
     = Some [txt "hello world"; txt "o world"; txt "ld"].
Proof.
  assert (txt " hello world " <> []) as Ht by discriminate.
  assert (len (txt " hello world ") <= 20) as Hfit by (vm_compute; discriminate).
  assert (0 <= 15 < 20) as Hov by lia.
  split; [exact Ht|]. split; [exact Hfit|]. split; [exact Hov|].
  assert (Z.to_nat ((len (txt " hello world ") + (20 - 15) - 1) / (20 - 15))
          <= 10)%nat as Hfuel by (vm_compute; lia).
  destruct (chunk_text_fitting_text_repeats_tail
              (txt " hello world ") 20 15 10 Ht Hfit Hov Hfuel)
    as (chunks & Hrun & Hchunks & _).
  rewrite Hrun, Hchunks. vm_compute. reflexivity.
Defined.

Lemma bus_delivers_in_fifo_order_witness :
  Bus.peek_mcp_message "R" Bus.three_drafts = O
  /\ Bus.envelope_for "R" Bus.three_drafts 1%positive
  /\ Bus.envelope_for "R" Bus.three_drafts 2%positive
  /\ Bus.envelope_for "R" Bus.three_drafts 3%positive
  /\ exists σ1 σ2 σ3 σ4 σ5 σ6,
       Bus.send_mcp_message 1%positive Bus.three_drafts = (true, σ1)
       /\ Bus.send_mcp_message 2%positive σ1 = (true, σ2)
       /\ Bus.send_mcp_message 3%positive σ2 = (true, σ3)
       /\ Bus.peek_mcp_message "R" σ3 = 3%nat
       /\ Bus.receive_mcp_message "R" σ3 = (Some 1%positive, σ4)
       /\ Bus.peek_mcp_message "R" σ4 = 2%nat
       /\ Bus.receive_mcp_message "R" σ4 = (Some 2%positive, σ5)
       /\ Bus.peek_mcp_message "R" σ5 = 1%nat
       /\ Bus.receive_mcp_message "R" σ5 = (Some 3%positive, σ6)
       /\ Bus.peek_mcp_message "R" σ6 = O
       /\ Bus.receive_mcp_message "R" σ6 = (None, σ6)
       /\ (forall l, Bus.draft_of σ6 l = Bus.draft_of Bus.three_drafts l).
Proof.
  assert (forall l tag s,
            Bus.heap Bus.three_drafts !! l = Some (Bus.draft s tag) ->
            Bus.envelope_for "R" Bus.three_drafts l) as Henv.
  { intros l tag s Hl. eexists. split; [exact Hl|].
    split_and!; [reflexivity | eexists; reflexivity | eexists; reflexivity]. }
  assert (Bus.peek_mcp_message "R" Bus.three_drafts = O) as H0 by reflexivity.
  assert (Bus.envelope_for "R" Bus.three_drafts 1%positive) as H1
    by (apply (Henv _ 1%nat "A"%string); reflexivity).
  assert (Bus.envelope_for "R" Bus.three_drafts 2%positive) as H2
    by (apply (Henv _ 2%nat "B"%string); reflexivity).
  assert (Bus.envelope_for "R" Bus.three_drafts 3%positive) as H3
    by (apply (Henv _ 3%nat "C"%string); reflexivity).
  split_and!; try assumption.
  exact (bus_delivers_in_fifo_order "R" Bus.three_drafts 1%positive 2%positive 3%positive H0 H1 H2 H3).
Defined.


Lemma save_writes_both_files_in_place_witness :
  vector_index two_chunks.1.2
  = Some (mkIndex dimension [replicate dimension 1; replicate dimension 2])
  /\ save_interrupted 2 two_chunks.1.2 one_chunk.2
     = mkDisk (Some (Some (mkIndex dimension
                             [replicate dimension 1; replicate dimension 2])))
              (embeddings_file one_chunk.2)
  /\ initialize_vector_store (save_vector_store two_chunks.1.2 one_chunk.2)
     = two_chunks.1.2.
Proof.
  assert (vector_index two_chunks.1.2
          = Some (mkIndex dimension
                    [replicate dimension 1; replicate dimension 2])) as Hi
    by (vm_compute; reflexivity).
  destruct (save_writes_both_files_in_place two_chunks.1.2 one_chunk.2 _ Hi)
    as (_ & _ & H2 & _ & _ & Hload & _).
  split; [exact Hi|]. split; [exact H2 | exact Hload].
Defined.
End Instances.

(** ** Further properties of the segmenter *)

Section Trimming.
Import Py Segmenter SegmenterSpec Ingestion.

Lemma length_lstrip (s : text) : (length (lstrip s) <= length s)%nat.
Proof.
  induction s as [|c s IH]; cbn [lstrip]; [lia|].
  destruct (isspace c); cbn [length]; lia.
Qed.

Lemma len_strip_le (s : text) : len (strip s) <= len s.
Proof.
  unfold strip, rstrip, len. rewrite length_rev.
  pose proof (length_lstrip (rev (lstrip s))) as H1.
  rewrite length_rev in H1. pose proof (length_lstrip s). lia.
Qed.

Lemma lstrip_suffix (s : text) : exists p, s = p ++ lstrip s.
Proof.
  induction s as [|c s [p IH]]; cbn [lstrip]; [exists []; reflexivity|].
  destruct (isspace c); [|exists []; reflexivity].
  exists (c :: p). cbn. now rewrite <- IH.
Qed.

Lemma lstrip_head (s : text) (x : ascii) :
  head (lstrip s) = Some x -> isspace x = false.
Proof.
  induction s as [|c s IH]; cbn [lstrip]; [discriminate|].
  destruct (isspace c) eqn:E; [exact IH|].
  cbn. intros [= <-]. exact E.
Qed.

Lemma rstrip_prefix (s : text) : exists q, s = rstrip s ++ q.
Proof.
  unfold rstrip. destruct (lstrip_suffix (rev s)) as [p Hp].
  exists (rev p). rewrite <- rev_app_distr, <- Hp. now rewrite rev_involutive.
Qed.

Lemma last_rev_head {A} (l : list A) : last (rev l) = head l.
Proof. destruct l as [|a l]; [reflexivity|]. cbn. now rewrite last_snoc. Qed.

Lemma strip_trimmed (s : text) : trimmed (strip s).
Proof.
  unfold strip. split; intros x Hx.
  - destruct (rstrip_prefix (lstrip s)) as [q Hq].
    apply (lstrip_head s). rewrite Hq.
    destruct (rstrip (lstrip s)); [discriminate|exact Hx].
  - unfold rstrip in Hx. rewrite last_rev_head in Hx.
    now apply lstrip_head in Hx.
Qed.

Lemma chunk_loop_trimmed (t : text) (cs ov : Z) :
  forall fuel start chunks out,
    chunk_loop fuel t cs ov start chunks = Some out ->
    Forall trimmed chunks -> Forall trimmed out.
Proof.
  induction fuel as [|fuel IH]; intros start chunks out; cbn [chunk_loop];
    destruct (start <? len t); try discriminate;
    try (intros [= <-]; auto; fail).
  destruct (window t cs start) as [chunk e]. intros Hrun Hall.
  apply (IH _ _ _ Hrun). apply Forall_app. split; [exact Hall|].
  constructor; [apply strip_trimmed | constructor].
Qed.

(** X2. Whatever the text and the configuration, a call of [chunk_text]
    that returns hands back chunks that neither start nor end with white
    space (a chunk may be empty). *)
Theorem chunk_text_chunks_are_trimmed
    (fuel : nat) (t : text) (chunk_size overlap : Z) (chunks : list text) :
  chunk_text fuel t chunk_size overlap = Some chunks ->
  Forall trimmed chunks.
Proof.
  unfold chunk_text. destruct t as [|c t'].
  - intros [= <-]. constructor.
  - intros H. apply (chunk_loop_trimmed _ _ _ _ _ _ _ H). constructor.
Qed.

Lemma chunk_text_chunks_are_trimmed_witness :
  chunk_text 10 (txt " hello world ") 20 15
  = Some [txt "hello world"; txt "o world"; txt "ld"]
  /\ Forall trimmed [txt "hello world"; txt "o world"; txt "ld"].
Proof.
  assert (chunk_text 10 (txt " hello world ") 20 15
          = Some [txt "hello world"; txt "o world"; txt "ld"]) as H
    by (vm_compute; reflexivity).
  split; [exact H|].
  exact (chunk_text_chunks_are_trimmed _ _ _ _ _ H).
Defined.
End Trimming.

Section Progress.
Import Py Segmenter SegmenterSpec Ingestion.

Lemma slice_len_le_len {A} (s : list A) (a b : Z) : len (slice s a b) <= len s.
Proof.
  unfold slice, len. rewrite length_take, length_drop. lia.
Qed.

(** With an overlap of at most 70% of a chunk size up to 4096, every
    pass of the loop that starts inside the text moves [start] forward,
    and its chunk has at most [chunk_size] characters. *)
Lemma window_advances (t : text) (cs ov start : Z) :
  0 < cs <= 4096 -> 0 <= ov -> 10 * ov <= 7 * cs ->
  start + 1 <= (window t cs start).2 - ov
  /\ len (window t cs start).1 <= cs.
Proof.
  intros Hcs Hov Hlim. unfold window.
  pose proof (slice_len_le t start cs ltac:(lia)) as Hl.
  destruct (start + cs <? len t); [|cbn [fst snd]; lia].
  destruct (past_threshold _ cs) eqn:E; [|cbn [fst snd]; lia].
  apply (past_threshold_about_70_percent _ cs Hcs) in E.
  cbn [fst snd]. split; [lia|].
  unfold slice_to.
  pose proof (slice_len_le_len (slice t start (start + cs)) 0
                (break_point (slice t start (start + cs)) + 1)). lia.
Qed.

Lemma chunk_loop_terminates (t : text) (cs ov : Z) :
  0 < cs <= 4096 -> 0 <= ov -> 10 * ov <= 7 * cs ->
  forall fuel start chunks,
    len t - start <= Z.of_nat fuel ->
    exists new,
      chunk_loop fuel t cs ov start chunks = Some (chunks ++ new)
      /\ Z.of_nat (length new) <= Z.max 0 (len t - start)
      /\ Forall (fun c => len c <= cs) new
      /\ (start < len t -> new <> []).
Proof.
  intros Hcs Hov Hlim.
  induction fuel as [|fuel IH]; intros start chunks Hfuel; cbn [chunk_loop];
    destruct (Z.ltb_spec start (len t)); try lia.
  - exists []. rewrite app_nil_r. split_and!; [reflexivity|cbn; lia|constructor|lia].
  - destruct (window_advances t cs ov start Hcs Hov Hlim) as [Hadv Hlen].
    destruct (window t cs start) as [chunk e]. cbn [fst snd] in *.
    destruct (IH (e - ov) (chunks ++ [strip chunk]) ltac:(lia))
      as (new & Hrun & Hcount & Hall & _).
    exists (strip chunk :: new). rewrite Hrun, <- app_assoc. cbn [app].
    split_and!; [reflexivity|cbn [length]; lia| |discriminate].
    constructor; [|exact Hall]. pose proof (len_strip_le chunk). lia.
  - exists []. rewrite app_nil_r. split_and!; [reflexivity|cbn; lia|constructor|lia].
Qed.

(** X1. For every non-empty text, a chunk size from 1 to 4096 and an overlap
    from 0 to 70% of the chunk size (the 500 and 50 of [process_document]
    among them), [chunk_text] returns after at most [len(text)] passes of
    its loop, with at least one chunk, at most [len(text)] chunks, and no
    chunk longer than [chunk_size]. *)
Theorem chunk_text_terminates_with_moderate_overlap
    (t : text) (chunk_size overlap : Z) (fuel : nat) :
  t <> [] -> 0 < chunk_size <= 4096 ->
  0 <= overlap -> 10 * overlap <= 7 * chunk_size ->
  len t <= Z.of_nat fuel ->
  exists chunks,
    chunk_text fuel t chunk_size overlap = Some chunks
    /\ chunks <> []
    /\ Z.of_nat (length chunks) <= len t
    /\ Forall (fun c => len c <= chunk_size) chunks.
Proof.
  intros Ht Hcs Hov Hlim Hfuel. unfold chunk_text.
  destruct t as [|c t']; [congruence|].
  destruct (chunk_loop_terminates (c :: t') chunk_size overlap Hcs Hov Hlim
              fuel 0 [] ltac:(lia)) as (new & Hrun & Hcount & Hall & Hne).
  exists new. cbn [app] in Hrun.
  split; [exact Hrun|]. split; [apply Hne; unfold len; cbn; lia|].
  split; [pose proof (len_nonneg (c :: t')); lia | exact Hall].
Qed.

Lemma chunk_text_terminates_witness :
  txt "aaaaaaaa aaaaaaaa" <> []
  /\ 0 < 10 <= 4096 /\ 0 <= 3 /\ 10 * 3 <= 7 * 10
  /\ len (txt "aaaaaaaa aaaaaaaa") <= Z.of_nat 17
  /\ exists chunks,
       chunk_text 17 (txt "aaaaaaaa aaaaaaaa") 10 3 = Some chunks
       /\ chunks <> []
       /\ Z.of_nat (length chunks) <= len (txt "aaaaaaaa aaaaaaaa")
       /\ Forall (fun c => len c <= 10) chunks.
Proof.
  assert (txt "aaaaaaaa aaaaaaaa" <> []) as Ht by discriminate.
  assert (len (txt "aaaaaaaa aaaaaaaa") <= Z.of_nat 17) as Hf
    by (vm_compute; discriminate).
  split; [exact Ht|]. split; [lia|]. split; [lia|]. split; [lia|].
  split; [exact Hf|].
  exact (chunk_text_terminates_with_moderate_overlap
           (txt "aaaaaaaa aaaaaaaa") 10 3 17 Ht ltac:(lia) ltac:(lia)
           ltac:(lia) Hf).
Defined.
End Progress.

Section FixedWindows.
Import Py Segmenter SegmenterSpec Ingestion.

Lemma binary_round_aux_sign (mx ex : Z) (lx : location) :
  match binary_round_aux F64.prec F64.emax false mx ex lx with
  | S754_zero s | S754_infinity s | S754_finite s _ _ => s = false
  | S754_nan => True
  end.
Proof.
  unfold binary_round_aux.
  destruct (shr_fexp _ _ mx ex lx) as [mrs' e'].
  destruct (shr_fexp _ _ _ e' loc_Exact) as [mrs'' e''].
  destruct (shr_m mrs''); [reflexivity| |exact I].
  destruct (Z.leb _ _); reflexivity.
Qed.

Lemma of_int_sign (n : Z) :
  0 <= n ->
  match F64.of_int n with
  | S754_zero s | S754_infinity s | S754_finite s _ _ => s = false
  | S754_nan => True
  end.
Proof.
  intros Hn. unfold F64.of_int, binary_normalize.
  destruct n as [|m|m]; [reflexivity| |lia].
  unfold binary_round. destruct (shl_align _ _ _) as [mz ez].
  apply binary_round_aux_sign.
Qed.

(** The product [chunk_size * 0.7] is never negative for a chunk size
    that is not, so only a positive break point passes the test. *)
Lemma past_threshold_positive (bp cs : Z) :
  0 <= cs -> past_threshold bp cs = true -> 0 < bp.
Proof.
  intros Hcs. unfold past_threshold, F64.mul, F64.c07.
  pose proof (of_int_sign cs Hcs) as Hs.
  destruct (F64.of_int cs) as [s|s| |s m e]; cbn [SFmul]; try subst s;
    cbn [xorb F64.int_gt]; try discriminate.
  - intros H. now apply Z.ltb_lt in H.
  - pose proof (binary_round_aux_sign (Z.pos (m * 6305039478318694))
                  (e + -53) loc_Exact) as Hr.
    fold F64.prec F64.emax.
    destruct (binary_round_aux _ _ _ _ _ _) as [s'|s'| |s' m' e'];
      try subst s'; cbn [F64.int_gt]; try discriminate.
    + intros H. now apply Z.ltb_lt in H.
    + destruct (Z.leb_spec 0 e') as [He|He]; intros Hlt;
        apply Z.ltb_lt in Hlt.
      * assert (0 < 2 ^ e') by (apply Z.pow_pos_nonneg; lia). nia.
      * assert (0 < 2 ^ (- e')) by (apply Z.pow_pos_nonneg; lia). nia.
Qed.

Lemma slice_elem {A} (s : list A) (a b : Z) (k : nat) (x : A) :
  slice s a b !! k = Some x -> x ∈ s.
Proof.
  unfold slice. intros H. apply lookup_take_Some in H as [H _].
  rewrite lookup_drop in H. eapply list_elem_of_lookup_2; eauto.
Qed.

(** In a text without full stop, newline or blank no window is cut
    short. *)
Lemma window_without_boundary (t : text) (cs start : Z) :
  0 <= cs -> (forall c, c ∈ t -> ~ boundary c) ->
  window t cs start = (slice t start (start + cs), start + cs).
Proof.
  intros Hcs Hnone. unfold window.
  destruct (start + cs <? len t); [|reflexivity].
  destruct (past_threshold _ cs) eqn:E; [|reflexivity].
  apply past_threshold_positive in E; [|exact Hcs].
  destruct (break_point_last_boundary (slice t start (start + cs)))
    as [[Hbp _]|(_ & (c & Hc & Hb) & _)]; [lia|].
  exfalso. apply (Hnone c); [|exact Hb]. eapply slice_elem; eauto.
Qed.

Lemma chunk_loop_fixed_windows (t : text) (cs ov : Z) :
  0 <= cs -> 0 < cs - ov -> (forall c, c ∈ t -> ~ boundary c) ->
  forall (m fuel : nat) (start : Z) (chunks : list text),
    (m <= fuel)%nat ->
    len t <= start + Z.of_nat m * (cs - ov) ->
    (forall j, (j < m)%nat -> start + Z.of_nat j * (cs - ov) < len t) ->
    chunk_loop fuel t cs ov start chunks
    = Some (chunks ++ fixed_windows t cs ov start m).
Proof.
  intros Hcs Hst Hnone.
  induction m as [|m IH]; intros fuel start chunks Hf Hend Hin.
  - cbn [fixed_windows]. rewrite app_nil_r. apply chunk_loop_done. lia.
  - destruct fuel as [|fuel]; [lia|].
    pose proof (Hin O ltac:(lia)) as H0. cbn in H0.
    cbn [chunk_loop]. destruct (Z.ltb_spec start (len t)); [|lia].
    rewrite window_without_boundary by assumption.
    rewrite (IH fuel (start + cs - ov)); try lia.
    + cbn [fixed_windows]. now rewrite <- app_assoc.
    + intros j Hj. specialize (Hin (S j) ltac:(lia)). lia.
Qed.

(** X3. In a non-empty text that holds no full stop, newline or blank, and
    for every [0 <= overlap < chunk_size], [chunk_text] returns the
    trimmed windows [text[i*stride : i*stride + chunk_size]] for
    [stride = chunk_size - overlap] and every [i] with
    [i * stride < len(text)], and nothing else. *)
Theorem chunk_text_without_boundaries_cuts_fixed_windows
    (t : text) (chunk_size overlap : Z) (fuel : nat) :
  t <> [] -> 0 <= overlap < chunk_size ->
  (forall c, c ∈ t -> ~ boundary c) ->
  (Z.to_nat ((len t + (chunk_size - overlap) - 1) / (chunk_size - overlap))
   <= fuel)%nat ->
  chunk_text fuel t chunk_size overlap
  = Some (fixed_windows t chunk_size overlap 0
            (Z.to_nat ((len t + (chunk_size - overlap) - 1)
                       / (chunk_size - overlap)))).
Proof.
  intros Ht Hov Hnone Hfuel.
  set (stride := chunk_size - overlap) in *.
  assert (0 < stride) as Hst by (unfold stride; lia).
  assert (0 < len t) as Hlen.
  { pose proof (len_nonneg t). pose proof (len_nil_iff t).
    destruct (Z.eq_dec (len t) 0); [tauto | lia]. }
  set (q := (len t + stride - 1) / stride) in *.
  assert (stride * q <= len t + stride - 1 < stride * (q + 1)) as Hq.
  { pose proof (Z.mul_div_le (len t + stride - 1) stride Hst).
    pose proof (Z.mul_succ_div_gt (len t + stride - 1) stride Hst).
    unfold q. lia. }
  assert (1 <= q) as Hq1 by nia.
  unfold chunk_text. destruct t as [|c t']; [congruence|].
  rewrite (chunk_loop_fixed_windows _ chunk_size overlap ltac:(lia) Hst Hnone
             (Z.to_nat q) fuel 0 []); [reflexivity|exact Hfuel| |].
  - fold stride. rewrite Z2Nat.id by lia. nia.
  - intros j Hj. fold stride. nia.
Qed.

Lemma chunk_text_without_boundaries_witness :
  txt "abcdefghijkl" <> [] /\ 0 <= 1 < 5
  /\ (forall c, c ∈ txt "abcdefghijkl" -> ~ boundary c)
  /\ chunk_text 3 (txt "abcdefghijkl") 5 1
     = Some [txt "abcde"; txt "efghi"; txt "ijkl"].
Proof.
  assert (txt "abcdefghijkl" <> []) as Ht by discriminate.
  assert (forall c, c ∈ txt "abcdefghijkl" -> ~ boundary c) as Hnone.
  { intros c Hc [->|[->| ->]];
      repeat (apply elem_of_cons in Hc as [Hc|Hc]; [discriminate|]);
      inversion Hc. }
  split; [exact Ht|]. split; [lia|]. split; [exact Hnone|].
  rewrite (chunk_text_without_boundaries_cuts_fixed_windows
             (txt "abcdefghijkl") 5 1 3 Ht ltac:(lia) Hnone);
    [vm_compute; reflexivity | vm_compute; lia].
Defined.
End FixedWindows.

(** ** The file type of an uploaded document *)

Section Extension.
Import Py Segmenter Ingestion.

Lemma lower_char_period (c : ascii) : lower_char c = period <-> c = period.
Proof.
  destruct c as [[] [] [] [] [] [] [] []]; vm_compute; split; congruence.
Qed.

Lemma lower_char_idempotent (c : ascii) : lower_char (lower_char c) = lower_char c.
Proof. destruct c as [[] [] [] [] [] [] [] []]; vm_compute; reflexivity. Qed.

Lemma lower_idempotent (s : text) : lower (lower s) = lower s.
Proof.
  unfold lower. rewrite map_map. apply List.map_ext.
  intros c. apply lower_char_idempotent.
Qed.

Lemma lower_no_period (s : text) : period ∉ s -> period ∉ lower s.
Proof.
  unfold lower. intros H Hin. apply list_elem_of_In, in_map_iff in Hin.
  destruct Hin as (c & Hc & Hin).
  pose proof (proj1 (lower_char_period c) Hc) as Hp. rewrite Hp in Hin.
  apply H. now apply list_elem_of_In.
Qed.

Lemma last_segment_no_period (s acc : text) :
  period ∉ s -> last_segment s acc = rev acc ++ s.
Proof.
  revert acc. induction s as [|c s IH]; intros acc H; cbn [last_segment].
  - now rewrite app_nil_r.
  - apply not_elem_of_cons in H as [Hc Hs].
    destruct (Ascii.eqb_spec c period) as [->|_]; [congruence|].
    rewrite IH by assumption. cbn [rev]. now rewrite <- app_assoc.
Qed.

Lemma last_segment_after_period (s e acc : text) :
  last_segment (s ++ period :: e) acc = last_segment e [].
Proof.
  revert acc. induction s as [|c s IH]; intros acc; cbn [app last_segment].
  - now rewrite Ascii.eqb_refl.
  - destruct (Ascii.eqb c period); apply IH.
Qed.

(** X4. For a file name written in the code points below 256 (ASCII and
    Latin-1, where [str.lower] maps every character by itself; names
    with other characters are not covered), [process_document] reads the
    file type off the lower-cased text after the last full stop of the
    name, whatever such text precedes it; a name without a full stop is
    its own file type; and the choice of the extractor does not depend on
    the case of the name. *)
Theorem file_type_is_lowercased_text_after_last_period :
  (forall stem ext, period ∉ ext ->
     file_extension (stem ++ period :: ext) = lower ext
     /\ select_extractor (stem ++ period :: ext) = select_extractor ext)
  /\ (forall name, period ∉ name -> file_extension name = lower name)
  /\ (forall name, select_extractor (lower name) = select_extractor name).
Proof.
  assert (forall name, period ∉ name -> file_extension name = lower name)
    as Hplain.
  { intros name H. unfold file_extension.
    now rewrite last_segment_no_period by now apply lower_no_period. }
  assert (forall stem ext, period ∉ ext ->
            file_extension (stem ++ period :: ext) = lower ext) as Hext.
  { intros stem ext H. unfold file_extension, lower.
    rewrite map_app. cbn [map].
    replace (lower_char period) with period by reflexivity.
    rewrite last_segment_after_period.
    now apply (last_segment_no_period (lower ext) []), lower_no_period. }
  split; [|split].
  - intros stem ext H. split; [now apply Hext|].
    unfold select_extractor. now rewrite Hext, Hplain.
  - exact Hplain.
  - intros name. unfold select_extractor, file_extension.
    now rewrite lower_idempotent.
Qed.
End Extension.

(** ** Further properties of the message bus *)

Section BusInvariant.
Import Bus BusStats.

Lemma has_field_true (m : gmap string value) (f : string) :
  has_field m f = true <-> is_Some (m !! f).
Proof. unfold has_field. apply bool_decide_eq_true. Qed.

Lemma required_fields_present (m : gmap string value) :
  forallb (has_field m) required_fields = true
  <-> is_Some (m !! "sender") /\ is_Some (m !! "receiver")
      /\ is_Some (m !! "payload").
Proof.
  unfold required_fields. cbn [forallb].
  rewrite !andb_true_iff, !has_field_true. tauto.
Qed.

Lemma stamped_field (σ : state) (m : gmap string value) (f : string) :
  f <> "message_id"%string -> f <> "timestamp"%string ->
  stamped σ m !! f = m !! f.
Proof. intros H1 H2. unfold stamped. now rewrite !lookup_insert_ne by auto. Qed.

(** The three ways a call of [send_mcp_message] can go. *)
Lemma send_cases (l : loc) (σ : state) :
  (send_mcp_message l σ = (false, σ)
   /\ forall r, ~ envelope_for r σ l
   /\ (forall m, heap σ !! l = Some (DictObj m) ->
       forallb (has_field m) required_fields = false))
  \/ (exists m,
        heap σ !! l = Some (DictObj m)
        /\ forallb (has_field m) required_fields = true
        /\ (forall r, m !! "receiver" <> Some (Str r))
        /\ send_mcp_message l σ
           = (false, mkState (<[l := DictObj (stamped σ m)]> (heap σ))
                             (message_queues σ) (S (S (clock σ)))))
  \/ (exists m r,
        heap σ !! l = Some (DictObj m)
        /\ forallb (has_field m) required_fields = true
        /\ m !! "receiver" = Some (Str r)
        /\ send_mcp_message l σ
           = (true, mkState (<[l := DictObj (stamped σ m)]> (heap σ))
                            (enqueue r l (message_queues σ))
                            (S (S (clock σ))))).
Proof.
  unfold send_mcp_message.
  destruct (heap σ !! l) as [[m|]|] eqn:Hl.
  - destruct (forallb (has_field m) required_fields) eqn:Hf.
    + cbn zeta. rewrite !lookup_insert_ne by discriminate.
      fold (stamped σ m).
      destruct (m !! "receiver") as [[r|p|t|s r' t]|] eqn:Hr.
      * right; right. exists m, r. auto.
      * right; left. exists m. split_and!; auto; congruence.
      * right; left. exists m. split_and!; auto; congruence.
      * right; left. exists m. split_and!; auto; congruence.
      * right; left. exists m. split_and!; auto; congruence.
    + left. split; [reflexivity|]. intros r. split.
      * intros (m' & Hm' & Hr & Hs & Hp). rewrite Hl in Hm'.
        injection Hm' as <-.
        assert (forallb (has_field m) required_fields = true) as Habs
          by (apply required_fields_present; eauto).
        congruence.
      * intros m' [= <-]. exact Hf.
  - left. split; [reflexivity|]. intros r. split.
    + intros (m' & Hm' & _). congruence.
    + intros m' [=].
  - left. split; [reflexivity|]. intros r. split.
    + intros (m' & Hm' & _). congruence.
    + intros m' [=].
Qed.
End BusInvariant.

Section BusOutcomes.
Import Bus BusStats.

(** X5. [send_mcp_message] refuses, and changes nothing for, an object
    that is no dictionary and a dictionary that lacks one of the three
    required fields.  It accepts a dictionary that has the three fields
    and a string as receiver: the message is stamped in place and its
    reference appended to the queue of that receiver, the other queues
    staying as they were.  Where the receiver is a dictionary or a list,
    which cannot be hashed, the call returns [False] and no queue
    changes, although the message has been stamped by then.  A call that
    returns [False] has changed no queue. *)
Theorem send_accepts_envelopes_and_refuses_incomplete_messages
    (l : loc) (σ : state) :
  ((forall m, heap σ !! l = Some (DictObj m) ->
      m !! "sender" = None \/ m !! "receiver" = None
      \/ m !! "payload" = None) ->
   send_mcp_message l σ = (false, σ))
  /\ (forall r m,
        heap σ !! l = Some (DictObj m) -> m !! "receiver" = Some (Str r) ->
        is_Some (m !! "sender") -> is_Some (m !! "payload") ->
        (send_mcp_message l σ).1 = true
        /\ heap (send_mcp_message l σ).2
           = <[l := DictObj (stamped σ m)]> (heap σ)
        /\ message_queues (send_mcp_message l σ).2 !! r
           = Some (default [] (message_queues σ !! r) ++ [l])
        /\ forall r', r' <> r ->
             message_queues (send_mcp_message l σ).2 !! r'
             = message_queues σ !! r')
  /\ (forall p m,
        heap σ !! l = Some (DictObj m) -> m !! "receiver" = Some (Struct p) ->
        is_Some (m !! "sender") -> is_Some (m !! "payload") ->
        (send_mcp_message l σ).1 = false
        /\ heap (send_mcp_message l σ).2
           = <[l := DictObj (stamped σ m)]> (heap σ)
        /\ message_queues (send_mcp_message l σ).2 = message_queues σ)
  /\ ((send_mcp_message l σ).1 = false ->
      message_queues (send_mcp_message l σ).2 = message_queues σ).
Proof.
  destruct (send_cases l σ)
    as [[Hs Hno]|[(m & Hl & Hf & Hr & Hs)|(m & r & Hl & Hf & Hr & Hs)]];
    rewrite Hs; cbn [fst snd message_queues heap].
  - split; [reflexivity|]. split; [|split; [|reflexivity]].
    + intros r m Hl Hr H1 H3. exfalso. destruct (Hno r) as [Hn _].
      apply Hn. exists m. auto.
    + intros p m Hl Hr H1 H3. exfalso. destruct (Hno EmptyString) as [_ Hm].
      specialize (Hm m Hl).
      assert (forallb (has_field m) required_fields = true) as Habs
        by (apply required_fields_present; rewrite Hr; eauto).
      congruence.
  - split; [|split; [|split; [|reflexivity]]].
    + intros Hmiss. apply required_fields_present in Hf as (H1 & H2 & H3).
      destruct (Hmiss m Hl) as [H|[H|H]]; rewrite H in *;
        exfalso; eapply is_Some_None; eauto.
    + intros r m' Hl' Hr' _ _. rewrite Hl in Hl'. injection Hl' as <-.
      now destruct (Hr r).
    + intros p m' Hl' _ _ _. rewrite Hl in Hl'. injection Hl' as <-. auto.
  - split; [|split; [|split; [|discriminate]]].
    + intros Hmiss. apply required_fields_present in Hf as (H1 & H2 & H3).
      destruct (Hmiss m Hl) as [H|[H|H]]; rewrite H in *;
        exfalso; eapply is_Some_None; eauto.
    + intros r' m' Hl' Hr' _ _. rewrite Hl in Hl'. injection Hl' as <-.
      rewrite Hr in Hr'. injection Hr' as <-.
      split; [reflexivity|]. split; [reflexivity|]. unfold enqueue. split.
      * apply lookup_insert_eq.
      * intros r'' Hne. now apply lookup_insert_ne.
    + intros p m' Hl' Hr' _ _. rewrite Hl in Hl'. injection Hl' as <-.
      congruence.
Qed.

Lemma send_accepts_envelopes_witness :
  heap three_drafts !! 1%positive = Some (draft "A" 1)
  /\ (send_mcp_message 1%positive three_drafts).1 = true
  /\ message_queues (send_mcp_message 1%positive three_drafts).2 !! "R"
     = Some [1%positive]
  /\ message_queues (send_mcp_message 1%positive three_drafts).2 !! "S"
     = None.
Proof.
  assert (heap three_drafts !! 1%positive = Some (draft "A" 1)) as Hl
    by reflexivity.
  split; [exact Hl|].
  destruct (proj1 (proj2 (send_accepts_envelopes_and_refuses_incomplete_messages
                            1%positive three_drafts))
                  "R"%string _ Hl eq_refl
                  ltac:(eexists; reflexivity) ltac:(eexists; reflexivity))
    as (Ht & _ & Hq & Hother).
  split; [exact Ht|]. split; [exact Hq|].
  rewrite (Hother "S"%string) by discriminate. reflexivity.
Defined.

Lemma stamping_keeps_addresses (σ : state) (l : loc) (m : gmap string value)
    (r : string) (l0 : loc) :
  heap σ !! l = Some (DictObj m) ->
  (exists m0, heap σ !! l0 = Some (DictObj m0)
              /\ is_Some (m0 !! "sender") /\ m0 !! "receiver" = Some (Str r)) ->
  exists m0, <[l := DictObj (stamped σ m)]> (heap σ) !! l0 = Some (DictObj m0)
             /\ is_Some (m0 !! "sender") /\ m0 !! "receiver" = Some (Str r).
Proof.
  intros Hl (m0 & Hl0 & Hs & Hr).
  destruct (decide (l0 = l)) as [->|Hne].
  - rewrite Hl in Hl0. injection Hl0 as <-.
    exists (stamped σ m). rewrite lookup_insert_eq.
    rewrite !stamped_field by discriminate. auto.
  - exists m0. rewrite lookup_insert_ne by congruence. auto.
Qed.

Lemma send_well_queued (l : loc) (σ : state) :
  well_queued σ -> well_queued (send_mcp_message l σ).2.
Proof.
  intros Hw.
  destruct (send_cases l σ)
    as [[Hs _]|[(m & Hl & Hf & Hr & Hs)|(m & r & Hl & Hf & Hr & Hs)]];
    rewrite Hs; cbn [snd]; [exact Hw| |].
  - intros r0 q0 l0 Hq Hin. cbn [message_queues heap] in *.
    apply (stamping_keeps_addresses σ l m r0 l0 Hl). eauto.
  - intros r0 q0 l0 Hq Hin. cbn [message_queues heap] in *.
    apply (stamping_keeps_addresses σ l m r0 l0 Hl).
    unfold enqueue in Hq. destruct (decide (r0 = r)) as [->|Hne].
    + rewrite lookup_insert_eq in Hq. injection Hq as <-.
      apply elem_of_app in Hin as [Hin|Hin].
      * destruct (message_queues σ !! r) as [q|] eqn:Eq; cbn in Hin;
          [eauto | inversion Hin].
      * apply list_elem_of_singleton in Hin. subst l0.
        apply required_fields_present in Hf as (H1 & _). eauto.
    + rewrite lookup_insert_ne in Hq by congruence. eauto.
Qed.

Lemma receive_well_queued (r : string) (σ : state) :
  well_queued σ -> well_queued (receive_mcp_message r σ).2.
Proof.
  intros Hw. unfold receive_mcp_message.
  destruct (message_queues σ !! r) as [[|l q]|] eqn:Hq; try exact Hw.
  assert (well_queued (mkState (heap σ) (<[r := q]> (message_queues σ))
                               (clock σ))) as Hw'.
  { intros r0 q0 l0 Hq0 Hin. cbn [message_queues heap] in *.
    destruct (decide (r0 = r)) as [->|Hne].
    - rewrite lookup_insert_eq in Hq0. injection Hq0 as <-.
      apply (Hw r (l :: q) l0 Hq). now right.
    - rewrite lookup_insert_ne in Hq0 by congruence. eauto. }
  destruct (heap σ !! l) as [[m|]|]; [destruct (has_field m "sender")|..];
    exact Hw'.
Qed.

Lemma clear_well_queued (r : string) (σ : state) :
  well_queued σ -> well_queued (clear_mcp_queue r σ).
Proof.
  intros Hw. unfold clear_mcp_queue.
  destruct (message_queues σ !! r) eqn:Hq; [|exact Hw].
  intros r0 q0 l0 Hq0 Hin. cbn [message_queues heap] in *.
  destruct (decide (r0 = r)) as [->|Hne].
  - rewrite lookup_insert_eq in Hq0. injection Hq0 as <-. inversion Hin.
  - rewrite lookup_insert_ne in Hq0 by congruence. eauto.
Qed.

Lemma alloc_well_queued (m : gmap string value) (σ : state) :
  well_queued σ -> well_queued (alloc m σ).2.
Proof.
  intros Hw r0 q0 l0 Hq0 Hin. unfold alloc in *. cbn [snd message_queues heap] in *.
  destruct (Hw r0 q0 l0 Hq0 Hin) as (m0 & Hl0 & Hrest).
  exists m0. split; [|exact Hrest].
  rewrite lookup_insert_ne; [exact Hl0|].
  intros <-. apply (is_fresh (dom (heap σ))).
  apply elem_of_dom. eauto.
Qed.

(** X6. Every operation of the bus keeps the queues well formed: each
    queued reference points to a dictionary that has a sender and that
    names, as its receiver, the queue it waits in. *)
Theorem bus_operations_keep_queues_well_formed (σ : state) :
  well_queued σ ->
  (forall l, well_queued (send_mcp_message l σ).2)
  /\ (forall r, well_queued (receive_mcp_message r σ).2)
  /\ (forall r, well_queued (clear_mcp_queue r σ))
  /\ (forall m, well_queued (alloc m σ).2).
Proof.
  intros Hw. split_and!; intros x.
  - now apply send_well_queued.
  - now apply receive_well_queued.
  - now apply clear_well_queued.
  - now apply alloc_well_queued.
Qed.

Lemma empty_queues_well_formed (h : gmap loc object) (c : nat) :
  well_queued (mkState h ∅ c).
Proof. intros r q l Hq. cbn in Hq. now rewrite lookup_empty in Hq. Qed.

Lemma bus_operations_keep_queues_well_formed_witness :
  well_queued three_drafts
  /\ well_queued (send_mcp_message 1%positive three_drafts).2.
Proof.
  assert (well_queued three_drafts) as Hw by apply empty_queues_well_formed.
  split; [exact Hw|].
  apply (proj1 (bus_operations_keep_queues_well_formed three_drafts Hw)).
Defined.
End BusOutcomes.

Section BusDelivery.
Import Bus BusStats.

Lemma receive_cases (r : string) (σ : state) :
  well_queued σ ->
  (default [] (message_queues σ !! r) = []
   /\ receive_mcp_message r σ = (None, σ))
  \/ (exists l q,
        message_queues σ !! r = Some (l :: q)
        /\ receive_mcp_message r σ
           = (Some l, mkState (heap σ) (<[r := q]> (message_queues σ))
                              (clock σ))).
Proof.
  intros Hw. unfold receive_mcp_message.
  destruct (message_queues σ !! r) as [[|l q]|] eqn:Hq; [left; auto| |left; auto].
  right. exists l, q. split; [reflexivity|].
  destruct (Hw r (l :: q) l Hq ltac:(now left)) as (m & Hl & Hs & _).
  rewrite Hl. now rewrite (proj2 (has_field_true m "sender") Hs).
Qed.

(** X7. While the queues are well formed a pending message is always
    delivered: [receive_mcp_message] returns nothing only for a queue
    that is absent or empty, and otherwise returns the oldest message of
    the queue and takes exactly that one off, leaving the messages
    themselves untouched. *)
Theorem receive_delivers_oldest_pending (r : string) (σ : state) :
  well_queued σ ->
  match default [] (message_queues σ !! r) with
  | [] => receive_mcp_message r σ = (None, σ)
  | l :: q =>
      (receive_mcp_message r σ).1 = Some l
      /\ default [] (message_queues (receive_mcp_message r σ).2 !! r) = q
      /\ heap (receive_mcp_message r σ).2 = heap σ
  end.
Proof.
  intros Hw. destruct (receive_cases r σ Hw) as [[H0 Hr]|(l & q & Hq & Hr)].
  - now rewrite H0.
  - rewrite Hq, Hr. cbn. now rewrite lookup_insert_eq.
Qed.

Lemma receive_delivers_oldest_pending_witness :
  well_queued (send_mcp_message 1%positive three_drafts).2
  /\ (receive_mcp_message "R" (send_mcp_message 1%positive three_drafts).2).1
     = Some 1%positive.
Proof.
  assert (well_queued (send_mcp_message 1%positive three_drafts).2) as Hw
    by (apply send_well_queued, empty_queues_well_formed).
  split; [exact Hw|].
  pose proof (receive_delivers_oldest_pending "R" _ Hw) as H.
  replace (default [] (message_queues
                         (send_mcp_message 1%positive three_drafts).2 !! "R"))
    with [1%positive] in H by (vm_compute; reflexivity).
  exact (proj1 H).
Defined.

(** X9. A send leaves every queue but the one named by the receiver of its
    message as it was, and a receive leaves every queue but its own as
    it was. *)
Theorem queues_are_independent (r' : string) (σ : state) :
  (forall l,
     (forall m, heap σ !! l = Some (DictObj m) ->
                m !! "receiver" <> Some (Str r')) ->
     message_queues (send_mcp_message l σ).2 !! r' = message_queues σ !! r')
  /\ (forall r, r <> r' ->
        message_queues (receive_mcp_message r σ).2 !! r'
        = message_queues σ !! r').
Proof.
  split.
  - intros l Hother.
    destruct (send_cases l σ)
      as [[Hs _]|[(m & Hl & Hf & Hr & Hs)|(m & r & Hl & Hf & Hr & Hs)]];
      rewrite Hs; cbn [snd message_queues]; try reflexivity.
    unfold enqueue. apply lookup_insert_ne. intros ->. now apply (Hother m).
  - intros r Hne. unfold receive_mcp_message.
    destruct (message_queues σ !! r) as [[|l q]|]; try reflexivity.
    assert (message_queues
              (mkState (heap σ) (<[r := q]> (message_queues σ)) (clock σ))
            !! r' = message_queues σ !! r') as H
      by (cbn; now apply lookup_insert_ne).
    destruct (heap σ !! l) as [[m|]|]; [destruct (has_field m "sender")|..];
      exact H.
Qed.

(** X10. [clear_mcp_queue] empties the named queue and nothing else: after
    it the queue has depth 0 and a receive on it returns nothing, while
    the other queues, the set of queue names and the messages are as
    before. *)
Theorem clear_empties_only_the_named_queue (r : string) (σ : state) :
  peek_mcp_message r (clear_mcp_queue r σ) = O
  /\ receive_mcp_message r (clear_mcp_queue r σ) = (None, clear_mcp_queue r σ)
  /\ (forall r', r' <> r ->
        message_queues (clear_mcp_queue r σ) !! r' = message_queues σ !! r')
  /\ dom (message_queues (clear_mcp_queue r σ)) = dom (message_queues σ)
  /\ heap (clear_mcp_queue r σ) = heap σ.
Proof.
  assert (peek_mcp_message r (clear_mcp_queue r σ) = O) as Hpeek.
  { unfold peek_mcp_message, clear_mcp_queue.
    destruct (message_queues σ !! r) eqn:Hq; cbn.
    - now rewrite lookup_insert_eq.
    - now rewrite Hq. }
  split; [exact Hpeek|]. split; [now apply receive_nothing|].
  unfold clear_mcp_queue.
  destruct (message_queues σ !! r) eqn:Hq; cbn; [|auto].
  split_and!; [|apply dom_insert_lookup_L; eauto|reflexivity].
  intros r' Hne. now apply lookup_insert_ne.
Qed.
End BusDelivery.

Section BusRuns.
Import Bus BusStats.

Lemma send_all_queue (R : string) (ls : list loc) :
  forall σ,
    Forall (envelope_for R σ) ls ->
    default [] (message_queues (send_all ls σ) !! R)
    = default [] (message_queues σ !! R) ++ ls
    /\ (well_queued σ -> well_queued (send_all ls σ)).
Proof.
  induction ls as [|l ls IH]; intros σ Hall; cbn [send_all].
  - rewrite app_nil_r. auto.
  - apply Forall_cons in Hall as [Hl Hall].
    destruct (send_envelope R σ l Hl) as (σ' & Hs & Hq & Hp & _).
    rewrite Hs. cbn [snd].
    destruct (IH σ') as [IHq IHw].
    { eapply Forall_impl; [exact Hall|]. intros l'. apply Hp. }
    split.
    + rewrite IHq, Hq, enqueue_lookup. cbn. now rewrite <- app_assoc.
    + intros Hw. apply IHw.
      pose proof (send_well_queued l σ Hw) as Hw'. now rewrite Hs in Hw'.
Qed.

Lemma receive_n_drains (R : string) (q : list loc) :
  forall σ,
    well_queued σ -> default [] (message_queues σ !! R) = q ->
    (receive_n (length q) R σ).1 = Some <$> q
    /\ peek_mcp_message R (receive_n (length q) R σ).2 = O.
Proof.
  induction q as [|l q IH]; intros σ Hw Hq; cbn [length receive_n].
  - cbn [fst snd]. split; [reflexivity|]. unfold peek_mcp_message.
    now rewrite Hq.
  - destruct (receive_cases R σ Hw) as [[H0 _]|(l' & q' & Hq' & Hr)];
      [congruence|].
    rewrite Hq' in Hq. cbn in Hq. injection Hq as -> ->.
    rewrite Hr.
    set (σ1 := mkState (heap σ) (<[R := q]> (message_queues σ)) (clock σ)).
    assert (well_queued σ1) as Hw1.
    { pose proof (receive_well_queued R σ Hw) as H. now rewrite Hr in H. }
    destruct (IH σ1 Hw1) as [IH1 IH2].
    { unfold σ1. cbn. now rewrite lookup_insert_eq. }
    destruct (receive_n (length q) R σ1) as [os σ2]. cbn [fst snd] in *.
    split; [now rewrite IH1 | exact IH2].
Qed.

(** X8. Delivery is first in, first out for runs of any length: when the
    queues are well formed and [q] is what waits for [R], sending the
    well-formed messages [ls] to [R] one after the other and then
    receiving [len(q) + len(ls)] times returns the messages of [q] and
    then those of [ls], each once and in order, and leaves the queue
    empty. *)
Theorem bus_delivers_any_run_in_order
    (R : string) (σ : state) (ls : list loc) :
  well_queued σ -> Forall (envelope_for R σ) ls ->
  let q := default [] (message_queues σ !! R) in
  (receive_n (length (q ++ ls)) R (send_all ls σ)).1 = Some <$> (q ++ ls)
  /\ peek_mcp_message R (receive_n (length (q ++ ls)) R (send_all ls σ)).2 = O.
Proof.
  intros Hw Hall q. destruct (send_all_queue R ls σ Hall) as [Hq Hws].
  apply receive_n_drains; [now apply Hws | exact Hq].
Qed.

Lemma bus_delivers_any_run_witness :
  well_queued three_drafts
  /\ Forall (envelope_for "R" three_drafts) [3%positive; 1%positive]
  /\ (receive_n 2 "R" (send_all [3%positive; 1%positive] three_drafts)).1
     = [Some 3%positive; Some 1%positive].
Proof.
  assert (well_queued three_drafts) as Hw by apply empty_queues_well_formed.
  assert (forall l tag s,
            heap three_drafts !! l = Some (draft s tag) ->
            envelope_for "R" three_drafts l) as Henv.
  { intros l tag s Hl. eexists. split; [exact Hl|].
    split_and!; [reflexivity | eexists; reflexivity | eexists; reflexivity]. }
  assert (Forall (envelope_for "R" three_drafts) [3%positive; 1%positive])
    as Hall.
  { repeat constructor.
    - apply (Henv _ 3%nat "C"%string); reflexivity.
    - apply (Henv _ 1%nat "A"%string); reflexivity. }
  split; [exact Hw|]. split; [exact Hall|].
  exact (proj1 (bus_delivers_any_run_in_order "R" three_drafts
                  [3%positive; 1%positive] Hw Hall)).
Defined.

Lemma latest_sender_of_queued (σ : state) (r : string) (q : list loc) :
  well_queued σ -> message_queues σ !! r = Some q ->
  exists s, latest_sender_of σ q = Some s /\ (q = [] -> s = None).
Proof.
  intros Hw Hq. unfold latest_sender_of.
  destruct (last q) as [l|] eqn:Hlast.
  - destruct (Hw r q l Hq) as (m & Hl & [s Hs] & _).
    { apply last_Some in Hlast as [q' ->]. apply elem_of_app. right. now left. }
    rewrite Hl, Hs. cbn. eexists. split; [reflexivity|].
    intros ->. discriminate.
  - exists None. auto.
Qed.

(** X11. While the queues are well formed [get_mcp_stats] raises nothing; it
    counts every queue ever sent to, drained ones included, lists exactly
    those queues, and the message count it reports for a queue is the
    depth [peek_mcp_message] reports, with no latest sender for an empty
    queue. *)
Theorem stats_agree_with_peek (σ : state) :
  well_queued σ ->
  exists infos,
    get_mcp_stats σ = Some (size (dom (message_queues σ)), infos)
    /\ dom infos = dom (message_queues σ)
    /\ forall r i, infos !! r = Some i ->
         message_count i = peek_mcp_message r σ
         /\ (peek_mcp_message r σ = O -> latest_sender i = None).
Proof.
  intros Hw. unfold get_mcp_stats.
  assert (map_Forall (fun (_ : string) (o : option queue_info) => is_Some o)
                     (queue_info_of σ <$> message_queues σ)) as Hall.
  { intros r o Ho. rewrite lookup_fmap in Ho.
    destruct (message_queues σ !! r) as [q|] eqn:Hq; [|discriminate].
    cbn in Ho. injection Ho as <-. unfold queue_info_of.
    destruct (latest_sender_of_queued σ r q Hw Hq) as (s & -> & _).
    cbn. eauto. }
  destruct (decide _) as [_|Hn]; [|contradiction].
  eexists. split; [now rewrite size_dom|]. split.
  - apply set_eq. intros r. rewrite !elem_of_dom, lookup_omap, lookup_fmap.
    destruct (message_queues σ !! r) as [q|] eqn:Hq; cbn.
    + unfold queue_info_of.
      destruct (latest_sender_of_queued σ r q Hw Hq) as (s & -> & _).
      cbn. split; eauto.
    + split; intros [? ?]; discriminate.
  - intros r i Hi. rewrite lookup_omap, lookup_fmap in Hi.
    unfold peek_mcp_message.
    destruct (message_queues σ !! r) as [q|] eqn:Hq; [|discriminate].
    cbn in Hi. unfold queue_info_of in Hi.
    destruct (latest_sender_of_queued σ r q Hw Hq) as (s & Hs & Hnil).
    rewrite Hs in Hi. cbn in Hi. injection Hi as <-. cbn.
    split; [reflexivity|]. intros H0. apply Hnil.
    now destruct q.
Qed.

Lemma stats_agree_with_peek_witness :
  well_queued (send_mcp_message 1%positive three_drafts).2
  /\ exists infos,
       get_mcp_stats (send_mcp_message 1%positive three_drafts).2
       = Some (size (dom (message_queues
                            (send_mcp_message 1%positive three_drafts).2)),
               infos).
Proof.
  assert (well_queued (send_mcp_message 1%positive three_drafts).2) as Hw
    by (apply send_well_queued, empty_queues_well_formed).
  split; [exact Hw|].
  destruct (stats_agree_with_peek _ Hw) as (infos & H & _).
  exists infos. exact H.
Defined.
End BusRuns.

(** ** Further properties of the vector store *)

Section StoreOutcomes.
Import Faiss VectorStore.
Variable create_embeddings : list string -> option (list vec).

Lemma add_succeeds_iff (x : list vec) (idx : IndexFlatL2) :
  is_Some (add x idx) <-> Forall (fun v => length v = d idx) x.
Proof.
  unfold add. rewrite Forall_forall.
  destruct (forallb (fun v => Nat.eqb (length v) (d idx)) x) eqn:E.
  - split; [|eauto]. intros _ v Hv.
    rewrite forallb_forall in E. apply Nat.eqb_eq, E.
    now apply list_elem_of_In.
  - split; [intros [? ?]; discriminate|]. intros H. exfalso.
    assert (forallb (fun v => Nat.eqb (length v) (d idx)) x = true) as Habs.
    { apply forallb_forall. intros v Hv. apply Nat.eqb_eq, H.
      now apply list_elem_of_In. }
    congruence.
Qed.

(** X12. On an initialised store [store_embeddings] returns [True] exactly
    when it is given at least one chunk, the embedder answers, and every
    vector it answers with has the dimension of the index; in every other
    case, a vector of another dimension among them, it returns [False]
    and leaves the store and the files as they were. *)
Theorem store_embeddings_succeeds_exactly_when
    (chunks : list string) (doc : string) (st : store) (dk : disk)
    (idx : IndexFlatL2) :
  vector_index st = Some idx ->
  ((store_embeddings create_embeddings chunks doc st dk).1.1 = true
   <-> chunks <> []
       /\ exists x, create_embeddings chunks = Some x
                    /\ Forall (fun v => length v = d idx) x)
  /\ ((store_embeddings create_embeddings chunks doc st dk).1.1 = false ->
      store_embeddings create_embeddings chunks doc st dk = (false, st, dk)).
Proof.
  intros Hi.
  assert (ensure_initialized st dk = st) as Hst
    by (unfold ensure_initialized; now rewrite Hi).
  pose proof (store_embeddings_cases create_embeddings chunks doc st dk)
    as Hc. cbn zeta in Hc. rewrite Hst in Hc.
  destruct Hc as [[H Hnil]|[[H Hne]|(i0 & i' & x & Hne & Ex & Ei & Ea & H)]];
    rewrite H; cbn [fst snd].
  - split; [|reflexivity]. split; [discriminate|]. intros [Hc _]. congruence.
  - split; [|reflexivity]. split; [discriminate|].
    intros (_ & x & Ex & Hall). exfalso.
    unfold store_embeddings in H. rewrite Hst in H.
    destruct chunks; [congruence|]. rewrite Ex, Hi in H. cbn in H.
    apply add_succeeds_iff in Hall as [i' Hi']. rewrite Hi' in H. discriminate.
  - split; [|discriminate]. split; [|reflexivity]. intros _.
    split; [exact Hne|]. exists x. split; [exact Ex|].
    rewrite Hi in Ei. injection Ei as <-. apply add_succeeds_iff. eauto.
Qed.
End StoreOutcomes.

Section StoreOutcomesInstance.
Import Faiss VectorStore.

Lemma store_embeddings_succeeds_witness :
  vector_index one_chunk.1.2
  = Some (mkIndex dimension [replicate dimension 1])
  /\ (store_embeddings (fun texts => Some (map (fun _ => [1; 2]) texts))
        ["bb"%string] "b.txt" one_chunk.1.2 one_chunk.2).1.1 = false
  /\ store_embeddings (fun texts => Some (map (fun _ => [1; 2]) texts))
       ["bb"%string] "b.txt" one_chunk.1.2 one_chunk.2
     = (false, one_chunk.1.2, one_chunk.2).
Proof.
  assert (vector_index one_chunk.1.2
          = Some (mkIndex dimension [replicate dimension 1])) as Hi
    by (vm_compute; reflexivity).
  assert ((store_embeddings (fun texts => Some (map (fun _ => [1; 2]) texts))
             ["bb"%string] "b.txt" one_chunk.1.2 one_chunk.2).1.1 = false)
    as Hf by (vm_compute; reflexivity).
  split; [exact Hi|]. split; [exact Hf|].
  exact (proj2 (store_embeddings_succeeds_exactly_when _ _ _ _ _ _ Hi) Hf).
Defined.
End StoreOutcomesInstance.

Section RetrievalBounds.
Import Faiss VectorStore.
Variable create_embeddings : list string -> option (list vec).

Lemma collect_length (chunks documents : list string) (labels : list Z)
    (results : list (string * string)) :
  collect chunks documents labels = Some results ->
  (length results <= length labels)%nat.
Proof.
  revert results. induction labels as [|i labels IH]; intros results;
    cbn [collect].
  - intros [= <-]. cbn. lia.
  - destruct (i <? Py.len chunks).
    + destruct (py_index chunks i) as [c|]; [|discriminate].
      destruct (py_index documents i) as [dd|]; [|discriminate].
      cbn. destruct (collect chunks documents labels) as [rest|];
        [|discriminate].
      cbn. intros [= <-]. specialize (IH rest eq_refl). cbn. lia.
    + intros H. specialize (IH _ H). cbn. lia.
Qed.

Lemma search_length (idx : IndexFlatL2) (q : vec) (k : Z) (labels : list Z) :
  search idx q k = Some labels -> Z.of_nat (length labels) = k /\ 0 < k.
Proof.
  unfold search. destruct (negb _); [discriminate|].
  destruct (Z.leb_spec k 0); [discriminate|]. intros [= <-].
  rewrite length_app, length_map, length_replicate, length_take. lia.
Qed.

Lemma ranked_chunks_length (query : string) (k : Z) (st : store)
    (results : list (string * string)) :
  ranked_chunks create_embeddings query k st = Some results ->
  Z.of_nat (length results) <= Z.min k (Py.len (stored_chunks st)).
Proof.
  unfold ranked_chunks.
  destruct (create_embeddings [query]) as [x|]; [|discriminate]. cbn.
  destruct (head x) as [q|]; [|discriminate]. cbn.
  destruct (vector_index st) as [idx|]; [|discriminate]. cbn.
  destruct (search idx q _) as [labels|] eqn:Hs; [|discriminate]. cbn.
  destruct (collect _ _ labels) as [res|] eqn:Hc; [|discriminate]. cbn.
  destruct (log_ranks _ labels); [|discriminate]. cbn. intros [= <-].
  apply search_length in Hs as [Hs _]. apply collect_length in Hc. lia.
Qed.

(** X13. In every state of the store and the files, whatever the embedder
    answers, [retrieve_chunks] raises nothing and returns a list of at
    most [top_k] results and at most as many as there are stored chunks;
    it leaves the files alone and the store as it was once loaded. *)
Theorem retrieve_chunks_returns_at_most_top_k
    (query : string) (top_k : Z) (st : store) (dk : disk) (b : Bus.state) :
  exists results,
    (retrieve_chunks create_embeddings query top_k st dk b).1.1
    = Returned results
    /\ Z.of_nat (length results)
       <= Z.max 0 (Z.min top_k
                     (Py.len (stored_chunks (ensure_initialized st dk))))
    /\ (retrieve_chunks create_embeddings query top_k st dk b).1.2
       = ensure_initialized st dk.
Proof.
  unfold retrieve_chunks.
  destruct (stored_chunks (ensure_initialized st dk)) as [|c cs] eqn:Ec.
  - exists []. cbn. split_and!; try reflexivity. lia.
  - destruct (ranked_chunks _ query top_k _) as [results|] eqn:Hr.
    + destruct (Bus.alloc _ b) as [l b1]. exists results. cbn [fst snd].
      split_and!; try reflexivity.
      apply ranked_chunks_length in Hr. rewrite Ec in Hr. lia.
    + exists []. cbn [fst snd]. split_and!; try reflexivity. cbn. lia.
Qed.

(** X14. [retrieve_chunks] publishes what it returns: a non-empty result
    list has been put, together with the query, the number of results
    and the number of distinct documents of the store, in a new message
    from ["RetrievalAgent"] at the tail of the queue of
    ["LLMResponseAgent"]; on an empty store nothing is sent. *)
Theorem retrieve_chunks_publishes_its_results
    (query : string) (top_k : Z) (st : store) (dk : disk) (b : Bus.state)
    (results : list (string * string)) :
  (retrieve_chunks create_embeddings query top_k st dk b).1.1
  = Returned results ->
  let b' := (retrieve_chunks create_embeddings query top_k st dk b).2 in
  (stored_chunks (ensure_initialized st dk) = [] -> b' = b)
  /\ (results <> [] ->
      exists l,
        Bus.heap b !! l = None
        /\ Bus.message_queues b'
           = Bus.enqueue "LLMResponseAgent" l (Bus.message_queues b)
        /\ Bus.draft_of b' l
           = Some (Bus.Str "RetrievalAgent", Bus.Str "LLMResponseAgent",
                   Bus.Struct
                     (Bus.QueryResults query results (length results)
                        (total_documents
                           (get_vector_store_stats
                              (ensure_initialized st dk)))))).
Proof.
  unfold retrieve_chunks.
  destruct (stored_chunks (ensure_initialized st dk)) as [|c cs] eqn:Ec.
  - cbn. intros [= <-]. split; [reflexivity|congruence].
  - destruct (ranked_chunks _ query top_k _) as [res|] eqn:Hr.
    + unfold Bus.alloc. cbn [fst snd]. intros [= <-].
      split; [discriminate|]. intros _.
      set (l := fresh (dom (Bus.heap b))).
      set (m := results_message query res (ensure_initialized st dk)).
      set (b1 := Bus.mkState (<[l := Bus.DictObj m]> (Bus.heap b))
                             (Bus.message_queues b) (Bus.clock b)).
      assert (Bus.heap b !! l = None) as Hfresh
        by (apply not_elem_of_dom, is_fresh).
      assert (Bus.envelope_for "LLMResponseAgent" b1 l) as Henv.
      { exists m. unfold b1. cbn. rewrite lookup_insert_eq.
        split_and!; [reflexivity|reflexivity|eexists; reflexivity
                    |eexists; reflexivity]. }
      destruct (send_envelope _ _ _ Henv) as (b2 & Hs & Hq & _ & Hd).
      exists l. rewrite Hs. cbn [snd]. split; [exact Hfresh|].
      split; [exact Hq|]. rewrite Hd. unfold Bus.draft_of, b1. cbn.
      rewrite lookup_insert_eq. reflexivity.
    + cbn [fst snd]. intros [= <-]. split; [discriminate|congruence].
Qed.
End RetrievalBounds.

Section ExactMatch.
Import Faiss VectorStore.
Variable create_embeddings : list string -> option (list vec).

Lemma L2sqr_nonneg (q x : vec) : 0 <= L2sqr q x.
Proof.
  revert x. induction q as [|a q IH]; intros [|b x]; cbn [L2sqr]; try lia.
  specialize (IH x). pose proof (Z.square_nonneg (a - b)). lia.
Qed.

Lemma L2sqr_self (q : vec) : L2sqr q q = 0.
Proof. induction q as [|a q IH]; cbn [L2sqr]; [reflexivity|]. rewrite IH. lia. Qed.

(** What [retrieve_chunks] returns on an aligned store: the chunks and
    documents at the positions of the first [min(k, ntotal)] ranked
    hits. *)
Lemma retrieve_chunks_aligned_hits
    (query : string) (q : vec) (k : Z)
    (st : store) (dk : disk) (b : Bus.state) (idx : IndexFlatL2) :
  vector_index st = Some idx -> aligned st ->
  create_embeddings [query] = Some [q] -> length q = d idx -> 1 <= k ->
  (0 < ntotal idx)%nat ->
  exists results,
    (retrieve_chunks create_embeddings query k st dk b).1.1 = Returned results
    /\ Forall2 (hit_of st idx q)
         (take (Z.to_nat (Z.min k (Z.of_nat (ntotal idx)))) (ranked idx q))
         results.
Proof.
  intros Hi [Hcd Hci] Hq Hd Hk Hpos. cbn in Hci. rewrite Hi in Hci.
  unfold retrieve_chunks, ensure_initialized. rewrite Hi.
  destruct (stored_chunks st) as [|c cs] eqn:Ec; [cbn in Hci; lia|].
  rewrite <- Ec in Hcd, Hci.
  set (k' := Z.min k (Py.len (stored_chunks st))).
  assert (k' = Z.min k (Z.of_nat (ntotal idx))) as Hk'e
    by (unfold k', Py.len; now rewrite Hci).
  rewrite <- Hk'e.
  set (hits := take (Z.to_nat k') (ranked idx q)).
  assert (length hits = Z.to_nat k') as Hlen.
  { unfold hits. rewrite length_take, length_ranked. lia. }
  assert (search idx q k' = Some (map (fun h => Z.of_nat h.2) hits)) as Hs.
  { unfold search. rewrite Hd, Nat.eqb_refl. cbn [negb].
    destruct (Z.leb_spec k' 0); [lia|]. fold hits.
    rewrite Hlen, Nat.sub_diag. cbn. now rewrite app_nil_r. }
  assert (Forall (fun h => (h.2 < length (stored_chunks st))%nat
                           /\ exists v, xb idx !! h.2 = Some v
                                        /\ h.1 = L2sqr q v) hits) as Hin.
  { apply Forall_forall. intros h Hh.
    assert (h ∈ ranked idx q) as Hr.
    { apply elem_of_take in Hh as (j & Hj & _).
      eapply list_elem_of_lookup_2; eauto. }
    apply ranked_elem in Hr as (v & Hv & Hdist). split; [|eauto].
    rewrite Hci. apply lookup_lt_Some in Hv. exact Hv. }
  destruct (collect_hits _ _ _ hits Hcd Hin) as (results & Hc & Hrel).
  exists results.
  assert (ranked_chunks create_embeddings query k st = Some results) as ->.
  { unfold ranked_chunks. rewrite Hq. cbn. rewrite Hi. cbn.
    fold k'. rewrite Hs. cbn. rewrite Hc. cbn.
    rewrite log_ranks_hits; [reflexivity|].
    eapply Forall_impl; [exact Hin|]. cbn. intros h [H _]. lia. }
  destruct (Bus.alloc _ b) as [l1 b1]. cbn [fst].
  split; [reflexivity|].
  eapply Forall2_impl; [exact Hrel|]. intros h r (H1 & H2 & H3).
  split_and!; assumption.
Qed.

(** X15. When the query embeds to a vector that is stored in the index, the
    first result of [retrieve_chunks] on an aligned store is the chunk,
    with its document, of a vector at distance 0 from the query: the
    first such vector in order of insertion, every vector stored before
    it being at a positive distance. *)
Theorem exact_match_is_retrieved_first
    (query : string) (q : vec) (k : Z) (i : nat)
    (st : store) (dk : disk) (b : Bus.state) (idx : IndexFlatL2) :
  vector_index st = Some idx -> aligned st ->
  create_embeddings [query] = Some [q] -> length q = d idx -> 1 <= k ->
  xb idx !! i = Some q ->
  exists (j : nat) c doc rest v,
    (retrieve_chunks create_embeddings query k st dk b).1.1
    = Returned ((c, doc) :: rest)
    /\ stored_chunks st !! j = Some c
    /\ document_mapping st !! j = Some doc
    /\ (j <= i)%nat
    /\ xb idx !! j = Some v /\ L2sqr q v = 0
    /\ forall j' v', (j' < j)%nat -> xb idx !! j' = Some v' ->
                     0 < L2sqr q v'.
Proof.
  intros Hi Ha Hq Hd Hk Hstored.
  assert (0 < ntotal idx)%nat as Hpos
    by (pose proof (lookup_lt_Some _ _ _ Hstored); unfold ntotal; lia).
  destruct (retrieve_chunks_aligned_hits query q k st dk b idx
              Hi Ha Hq Hd Hk Hpos) as (results & Hres & Hrel).
  pose proof (ranked_ranked idx q) as Hsorted.
  pose proof (length_ranked idx q) as Hlen.
  destruct (ranked idx q) as [|h0 tl] eqn:Er; [cbn in Hlen; lia|].
  assert (forall h, h ∈ h0 :: tl <->
                    exists v, xb idx !! h.2 = Some v /\ h.1 = L2sqr q v) as Hel
    by (intros h; rewrite <- Er; apply ranked_elem).
  replace (Z.to_nat (Z.min k (Z.of_nat (ntotal idx))))
    with (S (Z.to_nat (Z.min k (Z.of_nat (ntotal idx))) - 1)) in Hrel by lia.
  cbn [take] in Hrel. apply Forall2_cons_inv_l in Hrel
    as ([c doc] & rest & (Hc & Hdoc & v & Hv & Hdist) & _ & ->).
  cbn [fst snd] in *.
  apply StronglySorted_cons in Hsorted as [Hfirst _].
  rewrite Forall_forall in Hfirst.
  assert (forall h, h ∈ h0 :: tl -> h = h0 \/ ranks_before h0 h) as Hmin.
  { intros h Hh. apply elem_of_cons in Hh as [->|Hh]; auto. }
  assert ((L2sqr q q, i) ∈ h0 :: tl) as Hself
    by (apply Hel; exists q; auto).
  rewrite L2sqr_self in Hself.
  pose proof (L2sqr_nonneg q v) as Hnn.
  assert (h0.1 = 0 /\ (h0.2 <= i)%nat) as [Hzero Hle].
  { destruct (Hmin _ Hself) as [<-|[Hlt|[Heq Hlt]]]; cbn in *; lia. }
  exists h0.2, c, doc, rest, v.
  split_and!; try assumption; [lia|].
  intros j' v' Hj' Hv'.
  assert ((L2sqr q v', j') ∈ h0 :: tl) as Hin' by (apply Hel; exists v'; auto).
  pose proof (L2sqr_nonneg q v').
  destruct (Hmin _ Hin') as [E|[Hlt|[Heq Hlt]]]; cbn in *.
  - rewrite <- E in Hj'. cbn in Hj'. lia.
  - lia.
  - lia.
Qed.
End ExactMatch.

Section Documents.
Import Faiss VectorStore.
Variable create_embeddings : list string -> option (list vec).

Lemma list_to_set_replicate (n : nat) (doc : string) :
  list_to_set (replicate (S n) doc) = ({[doc]} : gset string).
Proof.
  induction n as [|n IH]; cbn [replicate list_to_set] in *.
  - apply union_empty_r_L.
  - rewrite IH. apply union_idemp_L.
Qed.

(** X16. The statistics count distinct document names: a successful
    [store_embeddings] for [document_name] adds that name to the set of
    documents, so the number of documents grows by one for a new name and
    stays as it is when chunks are stored again under a name already
    present. *)
Theorem stored_document_is_counted_once
    (chunks : list string) (doc : string) (st st' : store) (dk dk' : disk) :
  is_Some (vector_index st) ->
  store_embeddings create_embeddings chunks doc st dk = (true, st', dk') ->
  documents (get_vector_store_stats st')
  = documents (get_vector_store_stats st) ∪ {[doc]}
  /\ total_documents (get_vector_store_stats st')
     = if decide (doc ∈ document_mapping st)
       then total_documents (get_vector_store_stats st)
       else S (total_documents (get_vector_store_stats st)).
Proof.
  intros [idx Hi] Hrun.
  assert (ensure_initialized st dk = st) as Hst
    by (unfold ensure_initialized; now rewrite Hi).
  pose proof (store_embeddings_cases create_embeddings chunks doc st dk)
    as Hc. cbn zeta in Hc. rewrite Hst in Hc.
  destruct Hc as [[H _]|[[H _]|(i0 & i' & x & Hne & _ & _ & _ & H)]];
    rewrite H in Hrun; try discriminate.
  injection Hrun as <- <-.
  destruct chunks as [|c chunks]; [congruence|].
  assert (list_to_set (document_mapping st
                       ++ replicate (length (c :: chunks)) doc)
          = (list_to_set (document_mapping st) ∪ {[doc]} : gset string)) as Hset.
  { rewrite list_to_set_app_L. cbn [length].
    now rewrite list_to_set_replicate. }
  unfold get_vector_store_stats. cbn [documents total_documents document_mapping].
  rewrite Hset. split; [reflexivity|].
  destruct (decide (doc ∈ document_mapping st)) as [Hin|Hout].
  - f_equal. rewrite union_comm_L. apply subseteq_union_1_L.
    apply singleton_subseteq_l, elem_of_list_to_set, Hin.
  - rewrite size_union by (apply disjoint_singleton_r;
                           now rewrite elem_of_list_to_set).
    rewrite size_singleton. lia.
Qed.

Lemma store_embeddings_interrupted_complete (n : nat) (chunks : list string)
    (doc : string) (st : store) (dk : disk) :
  (4 <= n)%nat ->
  store_embeddings_interrupted create_embeddings n chunks doc st dk
  = store_embeddings create_embeddings chunks doc st dk.
Proof.
  intros Hn. unfold store_embeddings_interrupted, store_embeddings.
  destruct chunks as [|c chunks]; [reflexivity|].
  destruct (create_embeddings (c :: chunks)) as [x|]; [|reflexivity].
  destruct (vector_index (ensure_initialized st dk) ≫= add x) as [idx|];
    [|reflexivity].
  unfold save_interrupted, save_vector_store, save_writes. cbn [vector_index].
  now rewrite take_ge by (cbn; lia).
Qed.

(** X17. After [clear_vector_store] nothing of the earlier data is left.
    The next [store_embeddings] whose chunks embed to vectors of the
    index dimension returns [True] and leaves in memory exactly the new
    chunks, their document name once per chunk and their vectors, at
    whatever point [n] its save stops ([save_vector_store] catches its
    own exception).  The files it leaves load back to that store when the
    save was completed and to the fresh empty store when it was not,
    never to earlier data; with a complete save the call is
    [store_embeddings] as modelled for the other properties. *)
Theorem clear_then_store_keeps_only_new_chunks
    (n : nat) (chunks : list string) (doc : string) (x : list vec)
    (st : store) (dk : disk) :
  chunks <> [] -> create_embeddings chunks = Some x ->
  Forall (fun v => length v = dimension) x ->
  let cleared := clear_vector_store st dk in
  let new := mkStore (Some (mkIndex dimension x)) chunks
                     (replicate (length chunks) doc) in
  exists dk',
    store_embeddings_interrupted create_embeddings n chunks doc
                                 cleared.1 cleared.2
    = (true, new, dk')
    /\ initialize_vector_store dk'
       = (if (4 <=? n)%nat then new else fresh_store)
    /\ ((4 <= n)%nat ->
        store_embeddings create_embeddings chunks doc cleared.1 cleared.2
        = (true, new, dk')).
Proof.
  intros Hne Hx Hdim cleared new. unfold cleared, clear_vector_store.
  cbn [fst snd].
  assert (add x (mkIndex dimension []) = Some (mkIndex dimension x)) as Hadd.
  { unfold add. cbn [d xb app].
    assert (forallb (fun v => Nat.eqb (length v) dimension) x = true) as ->;
      [|reflexivity].
    apply forallb_forall. intros v Hv. apply Nat.eqb_eq.
    rewrite Forall_forall in Hdim. now apply Hdim, list_elem_of_In. }
  assert (store_embeddings_interrupted create_embeddings n chunks doc
            fresh_store (mkDisk None None)
          = (true, new, save_interrupted n new (mkDisk None None))) as Hrun.
  { unfold store_embeddings_interrupted.
    destruct chunks as [|c chunks]; [congruence|]. rewrite Hx.
    change (ensure_initialized fresh_store (mkDisk None None))
      with fresh_store.
    cbn [vector_index fresh_store mbind option_bind]. rewrite Hadd.
    reflexivity. }
  exists (save_interrupted n new (mkDisk None None)).
  split; [exact Hrun|]. split.
  - unfold save_interrupted, save_writes, new. cbn [vector_index].
    destruct n as [|[|[|[|n]]]]; try reflexivity.
    rewrite take_ge by (cbn; lia). reflexivity.
  - intros Hn. rewrite <- Hrun.
    symmetry. now apply store_embeddings_interrupted_complete.
Qed.
End Documents.

Section StoreInstances.
Import Faiss VectorStore.

Lemma retrieve_chunks_publishes_witness :
  (retrieve_chunks length_embedder "bb" 1 two_chunks.1.2 two_chunks.2
                   Bus.empty).1.1
  = Returned [("bb"%string, "b.txt"%string)]
  /\ exists l,
       Bus.message_queues
         (retrieve_chunks length_embedder "bb" 1 two_chunks.1.2 two_chunks.2
                          Bus.empty).2
       = Bus.enqueue "LLMResponseAgent" l (Bus.message_queues Bus.empty).
Proof.
  assert ((retrieve_chunks length_embedder "bb" 1 two_chunks.1.2 two_chunks.2
                           Bus.empty).1.1
          = Returned [("bb"%string, "b.txt"%string)]) as Hr
    by (vm_compute; reflexivity).
  split; [exact Hr|].
  destruct (proj2 (retrieve_chunks_publishes_its_results
                     length_embedder "bb" 1 two_chunks.1.2 two_chunks.2
                     Bus.empty _ Hr) ltac:(discriminate))
    as (l & _ & Hq & _).
  exists l. exact Hq.
Defined.

Lemma exact_match_is_retrieved_first_witness :
  vector_index two_chunks.1.2
  = Some (mkIndex dimension [replicate dimension 1; replicate dimension 2])
  /\ aligned two_chunks.1.2
  /\ length_embedder ["bb"%string] = Some [replicate dimension 2]
  /\ length (replicate dimension 2) = dimension
  /\ 1 <= 2
  /\ [replicate dimension 1; replicate dimension 2] !! 1%nat
     = Some (replicate dimension 2)
  /\ exists c doc rest,
       (retrieve_chunks length_embedder "bb" 2 two_chunks.1.2 two_chunks.2
                        Bus.empty).1.1 = Returned ((c, doc) :: rest)
       /\ stored_chunks two_chunks.1.2 !! 1%nat = Some c.
Proof.
  assert (vector_index two_chunks.1.2
          = Some (mkIndex dimension
                    [replicate dimension 1; replicate dimension 2])) as Hi
    by (vm_compute; reflexivity).
  assert (aligned two_chunks.1.2) as Ha by (split; vm_compute; reflexivity).
  assert (length_embedder ["bb"%string] = Some [replicate dimension 2]) as Hq
    by (vm_compute; reflexivity).
  assert (length (replicate dimension 2) = dimension) as Hd
    by apply length_replicate.
  assert ([replicate dimension 1; replicate dimension 2] !! 1%nat
          = Some (replicate dimension 2)) as Hs by reflexivity.
  split; [exact Hi|]. split; [exact Ha|]. split; [exact Hq|].
  split; [exact Hd|]. split; [lia|]. split; [exact Hs|].
  destruct (exact_match_is_retrieved_first
              length_embedder "bb" (replicate dimension 2) 2 1
              two_chunks.1.2 two_chunks.2 Bus.empty _ Hi Ha Hq Hd
              ltac:(lia) Hs)
    as (j & c & doc & rest & v & Hr & Hc & _ & Hle & Hv & Hz & Hfirst).
  exists c, doc, rest. split; [exact Hr|].
  assert (j = 1%nat) as ->; [|exact Hc].
  destruct j as [|[|j]]; [|reflexivity|lia].
  exfalso. cbn in Hv. injection Hv as <-. vm_compute in Hz. discriminate.
Defined.

Lemma stored_document_is_counted_once_witness :
  is_Some (vector_index one_chunk.1.2)
  /\ store_embeddings length_embedder ["bb"%string] "b.txt"
       one_chunk.1.2 one_chunk.2
     = (true, two_chunks.1.2, two_chunks.2)
  /\ documents (get_vector_store_stats two_chunks.1.2)
     = documents (get_vector_store_stats one_chunk.1.2) ∪ {["b.txt"%string]}.
Proof.
  assert (is_Some (vector_index one_chunk.1.2)) as Hi
    by (eexists; vm_compute; reflexivity).
  assert (store_embeddings length_embedder ["bb"%string] "b.txt"
            one_chunk.1.2 one_chunk.2
          = (true, two_chunks.1.2, two_chunks.2)) as Hrun
    by (vm_compute; reflexivity).
  split; [exact Hi|]. split; [exact Hrun|].
  exact (proj1 (stored_document_is_counted_once length_embedder _ _ _ _ _ _
                  Hi Hrun)).
Defined.

Lemma clear_then_store_witness :
  ["a"%string] <> []
  /\ length_embedder ["a"%string] = Some [replicate dimension 1]
  /\ Forall (fun v : vec => length v = dimension) [replicate dimension 1]
  /\ exists dk',
       store_embeddings_interrupted length_embedder 2 ["a"%string] "a.txt"
         (clear_vector_store two_chunks.1.2 two_chunks.2).1
         (clear_vector_store two_chunks.1.2 two_chunks.2).2
       = (true,
          mkStore (Some (mkIndex dimension [replicate dimension 1]))
                  ["a"%string] (replicate 1 "a.txt"%string), dk')
       /\ initialize_vector_store dk' = fresh_store.
Proof.
  assert (["a"%string] <> []) as Hne by discriminate.
  assert (length_embedder ["a"%string] = Some [replicate dimension 1]) as Hx
    by (vm_compute; reflexivity).
  assert (Forall (fun v : vec => length v = dimension)
                 [replicate dimension 1]) as Hdim
    by (repeat constructor; apply length_replicate).
  split; [exact Hne|]. split; [exact Hx|]. split; [exact Hdim|].
  destruct (clear_then_store_keeps_only_new_chunks length_embedder 2
              ["a"%string] "a.txt" _ two_chunks.1.2 two_chunks.2
              Hne Hx Hdim) as (dk' & Hrun & Hload & _).
  exists dk'. split; [exact Hrun | exact Hload].
Defined.
End StoreInstances.

(** ** The answer generator *)

Section Answers.
Import Llm.
Variable create : string -> string -> bool.
Variable invoke : string -> string -> string -> string + string.

Lemma default_model_available : default_model ∈ AVAILABLE_MODELS.
Proof. unfold default_model, AVAILABLE_MODELS. apply elem_of_cons. now left. Qed.

(** X18. A model name that is not among the available ones is replaced by
    the default model: the answer, the sources and the cache are those of
    a call with ["llama-3.3-70b-versatile"]. *)
Theorem unknown_model_falls_back_to_default
    (query : string) (top_chunks : list (string * string))
    (model_name temperature : string) (cache : gset string) :
  model_name ∉ AVAILABLE_MODELS ->
  generate_response create invoke query top_chunks model_name temperature cache
  = generate_response create invoke query top_chunks default_model
                      temperature cache.
Proof.
  intros Hout. unfold generate_response.
  destruct (decide (model_name ∈ AVAILABLE_MODELS)) as [Hin|_]; [contradiction|].
  destruct (decide (default_model ∈ AVAILABLE_MODELS)) as [_|Hn];
    [reflexivity|].
  exfalso. apply Hn, default_model_available.
Qed.

Lemma get_llm_grows (model_name temperature : string) (cache cache' : gset string) :
  get_llm create model_name temperature cache = Some cache' ->
  cache ⊆ cache' /\ (model_name ++ "_" ++ temperature)%string ∈ cache'.
Proof.
  unfold get_llm. destruct (decide _) as [Hin|Hout].
  - intros [= <-]. split; [reflexivity|exact Hin].
  - destruct (create model_name temperature); [|discriminate].
    intros [= <-]. split; [apply union_subseteq_r|].
    apply elem_of_union. left. now apply elem_of_singleton.
Qed.

(** X19. [generate_response] reports sources only next to an answer of the
    model it called, and then exactly the documents of the chunks it was
    given.  With [m] the model it settles on (the one asked for when that
    is available, the default one otherwise): with no chunks it returns
    the fixed apology, no sources and the cache as it was; with chunks
    but no client of [m] (none in the cache and [ChatGroq] failing) the
    fixed message about the model, no sources and the cache as it was;
    with a client, the stripped content of what [m] answers to the prompt
    next to the documents of the chunks, or, when the call raises, the
    message for that error and no sources.  So sources that are not empty
    mean chunks, a client of [m] and an answer of [m].  The cache only
    grows, by the key of [m] at most. *)
Theorem sources_come_only_with_a_model_answer
    (query : string) (top_chunks : list (string * string))
    (model_name temperature : string) (cache : gset string) :
  let m := if decide (model_name ∈ AVAILABLE_MODELS) then model_name
           else default_model in
  let key := (m ++ "_" ++ temperature)%string in
  let prompt := construct_prompt query (context_of top_chunks) in
  let r := generate_response create invoke query top_chunks model_name
                             temperature cache in
  (top_chunks = [] -> r = (no_context_answer, ∅, cache))
  /\ (top_chunks <> [] -> key ∉ cache -> create m temperature = false ->
      r = (no_model_answer, ∅, cache))
  /\ (top_chunks <> [] -> (key ∈ cache \/ create m temperature = true) ->
      (forall content, invoke m temperature prompt = inl content ->
         r.1 = (strip content, list_to_set (map snd top_chunks)))
      /\ (forall error_msg, invoke m temperature prompt = inr error_msg ->
            r.1 = (error_answer error_msg, ∅))
      /\ r.2 = if decide (key ∈ cache) then cache else {[key]} ∪ cache)
  /\ (r.1.2 <> ∅ ->
      top_chunks <> []
      /\ (key ∈ cache \/ create m temperature = true)
      /\ exists content,
           invoke m temperature prompt = inl content
           /\ r.1 = (strip content, list_to_set (map snd top_chunks)))
  /\ cache ⊆ r.2 /\ r.2 ⊆ {[key]} ∪ cache.
Proof.
  cbn zeta. unfold generate_response.
  set (m := if decide (model_name ∈ AVAILABLE_MODELS) then model_name
            else default_model).
  set (key := (m ++ "_" ++ temperature)%string).
  destruct top_chunks as [|c cs].
  { cbn [fst snd].
    split; [reflexivity|]. split; [congruence|]. split; [congruence|].
    split; [congruence|]. split; [reflexivity | apply union_subseteq_r]. }
  unfold get_llm. fold key.
  destruct (decide (key ∈ cache)) as [Hin|Hout].
  - destruct (invoke m temperature _) as [content|err] eqn:Hi; cbn [fst snd].
    + split; [discriminate|]. split; [contradiction|].
      split; [|split; [|split; [reflexivity | apply union_subseteq_r]]].
      * intros _ _. split; [intros ? [= <-]; reflexivity|].
        split; [discriminate | reflexivity].
      * intros _. split; [discriminate|]. split; [now left|].
        exists content. split; reflexivity.
    + split; [discriminate|]. split; [contradiction|].
      split; [|split; [congruence|split; [reflexivity | apply union_subseteq_r]]].
      intros _ _. split; [discriminate|].
      split; [intros ? [= <-]; reflexivity | reflexivity].
  - destruct (create m temperature) eqn:Hc.
    + destruct (invoke m temperature _) as [content|err] eqn:Hi; cbn [fst snd].
      * split; [discriminate|]. split; [discriminate|].
        split; [|split; [|split; [apply union_subseteq_r | reflexivity]]].
        -- intros _ _. split; [intros ? [= <-]; reflexivity|].
           split; [discriminate | reflexivity].
        -- intros _. split; [discriminate|]. split; [now right|].
           exists content. split; reflexivity.
      * split; [discriminate|]. split; [discriminate|].
        split; [|split; [congruence|split; [apply union_subseteq_r | reflexivity]]].
        intros _ _. split; [discriminate|].
        split; [intros ? [= <-]; reflexivity | reflexivity].
    + cbn [fst snd]. split; [discriminate|]. split; [reflexivity|].
      split; [|split; [congruence|split; [reflexivity | apply union_subseteq_r]]].
      intros _ [H|H]; [contradiction | discriminate].
Qed.
End Answers.

Section AnswersCache.
Import Llm.

(** X20. Once the client of a model and temperature is in the cache,
    [generate_response] does not build it again: for an available model
    the result is the same whether or not a client could be built now, and
    the cache stays as it is. *)
Theorem cached_client_is_not_rebuilt
    (create create' : string -> string -> bool)
    (invoke : string -> string -> string -> string + string)
    (query : string) (top_chunks : list (string * string))
    (model_name temperature : string) (cache : gset string) :
  model_name ∈ AVAILABLE_MODELS ->
  (model_name ++ "_" ++ temperature)%string ∈ cache ->
  generate_response create invoke query top_chunks model_name temperature cache
  = generate_response create' invoke query top_chunks model_name temperature
                      cache
  /\ (generate_response create invoke query top_chunks model_name temperature
                        cache).2 = cache.
Proof.
  intros Hm Hin. unfold generate_response.
  destruct (decide (model_name ∈ AVAILABLE_MODELS)) as [_|Hn]; [|contradiction].
  destruct top_chunks as [|c cs]; [auto|].
  unfold get_llm.
  destruct (decide (_ ∈ cache)) as [_|Hn]; [|contradiction].
  destruct (invoke _ _ _); auto.
Qed.

Lemma unknown_model_falls_back_witness :
  ("gpt-4"%string ∉ AVAILABLE_MODELS)
  /\ generate_response (fun _ _ => true) (fun _ _ p => inl p) "q"
       [("c"%string, "d.txt"%string)] "gpt-4" "0.7" ∅
     = generate_response (fun _ _ => true) (fun _ _ p => inl p) "q"
         [("c"%string, "d.txt"%string)] default_model "0.7" ∅.
Proof.
  assert ("gpt-4"%string ∉ AVAILABLE_MODELS) as Hout.
  { unfold AVAILABLE_MODELS. intros H.
    repeat (apply elem_of_cons in H as [H|H]; [discriminate|]).
    inversion H. }
  split; [exact Hout|].
  exact (unknown_model_falls_back_to_default _ _ _ _ _ _ _ Hout).
Defined.

Lemma cached_client_is_not_rebuilt_witness :
  default_model ∈ AVAILABLE_MODELS
  /\ (default_model ++ "_" ++ "0.7")%string
     ∈ ({[ "llama-3.3-70b-versatile_0.7"%string ]} : gset string)
  /\ generate_response (fun _ _ => true) (fun _ _ p => inl p) "q"
       [("c"%string, "d.txt"%string)] default_model "0.7"
       {[ "llama-3.3-70b-versatile_0.7"%string ]}
     = generate_response (fun _ _ => false) (fun _ _ p => inl p) "q"
         [("c"%string, "d.txt"%string)] default_model "0.7"
         {[ "llama-3.3-70b-versatile_0.7"%string ]}.
Proof.
  assert ((default_model ++ "_" ++ "0.7")%string
          ∈ ({[ "llama-3.3-70b-versatile_0.7"%string ]} : gset string)) as Hin
    by (apply elem_of_singleton; reflexivity).
  split; [apply default_model_available|]. split; [exact Hin|].
  exact (proj1 (cached_client_is_not_rebuilt _ _ _ _ _ _ _ _
                  default_model_available Hin)).
Defined.

(** With chunks, a well-known model and a client that cannot be built,
    whatever the model would answer, the call reports the failure and no
    sources. *)
Lemma sources_come_only_with_a_model_answer_witness :
  [("c"%string, "d.txt"%string)] <> []
  /\ generate_response (fun _ _ => false) (fun _ _ p => inl p) "q"
       [("c"%string, "d.txt"%string)] default_model "0.7" ∅
     = (no_model_answer, ∅, ∅).
Proof.
  assert ([("c"%string, "d.txt"%string)] <> []) as Hne by discriminate.
  split; [exact Hne|].
  apply (proj1 (proj2 (sources_come_only_with_a_model_answer
                         (fun _ _ => false) (fun _ _ p => inl p)
                         "q" [("c"%string, "d.txt"%string)]
                         default_model "0.7" ∅)) Hne).
  - apply not_elem_of_empty.
  - reflexivity.
Defined.
End AnswersCache.

(** ** Answering a query end to end *)

Section Coordination.
Import Faiss VectorStore App.
Variable create_embeddings : list string -> option (list vec).
Variable create : string -> string -> bool.
Variable invoke : string -> string -> string -> string + string.

(** What [retrieve_chunks] does to the bus: nothing, or one new message
    holding the results, sent to ["LLMResponseAgent"]. *)
Lemma retrieve_chunks_bus_cases
    (query : string) (k : Z) (st : store) (dk : disk) (b : Bus.state) :
  let r := retrieve_chunks create_embeddings query k st dk b in
  let st1 := ensure_initialized st dk in
  (r = (Returned [], st1, b)
   /\ (stored_chunks st1 = []
       \/ ranked_chunks create_embeddings query k st1 = None))
  \/ (exists results l b2,
        Bus.heap b !! l = None
        /\ stored_chunks st1 <> []
        /\ ranked_chunks create_embeddings query k st1 = Some results
        /\ r = (Returned results, st1, b2)
        /\ Bus.message_queues b2
           = Bus.enqueue "LLMResponseAgent" l (Bus.message_queues b)
        /\ Bus.heap b2
           = <[l := Bus.DictObj
                      (BusStats.stamped b (results_message query results st1))]>
               (<[l := Bus.DictObj (results_message query results st1)]>
                  (Bus.heap b))).
Proof.
  cbn zeta. unfold retrieve_chunks.
  destruct (stored_chunks (ensure_initialized st dk)) as [|c cs] eqn:Ec;
    [left; auto|].
  destruct (ranked_chunks _ query k _) as [res|] eqn:Hr; [|left; auto].
  right. unfold Bus.alloc.
  set (l := fresh (dom (Bus.heap b))).
  set (m := results_message query res (ensure_initialized st dk)).
  set (b1 := Bus.mkState (<[l := Bus.DictObj m]> (Bus.heap b))
                         (Bus.message_queues b) (Bus.clock b)).
  assert (Bus.heap b1 !! l = Some (Bus.DictObj m)) as Hl
    by (unfold b1; cbn; apply lookup_insert_eq).
  destruct (send_cases l b1)
    as [[_ Hno]|[(m' & Hl' & _ & Hr' & _)|(m' & r & Hl' & _ & Hr' & Hs)]].
  - exfalso. destruct (Hno "LLMResponseAgent"%string) as [Hn _]. apply Hn.
    exists m. split; [exact Hl|].
    split_and!; [reflexivity|eexists; reflexivity|eexists; reflexivity].
  - exfalso. rewrite Hl in Hl'. injection Hl' as <-.
    now apply (Hr' "LLMResponseAgent"%string).
  - rewrite Hl in Hl'. injection Hl' as <-.
    assert (m !! "receiver" = Some (Bus.Str "LLMResponseAgent")) as Hm
      by reflexivity.
    assert (r = "LLMResponseAgent"%string) as -> by congruence.
    exists res, l, (Bus.send_mcp_message l b1).2.
    split; [apply not_elem_of_dom, is_fresh|]. split; [discriminate|].
    split; [reflexivity|]. split; [reflexivity|].
    rewrite Hs. cbn [snd Bus.message_queues Bus.heap]. auto.
Qed.

Lemma query_results_of_message (b : Bus.state) (l : Bus.loc)
    (query : string) (results : list (string * string)) (st : store) :
  Bus.heap b !! l
  = Some (Bus.DictObj
            (BusStats.stamped b (results_message query results st))) ->
  query_results b l = Returned (query, results).
Proof.
  intros H. unfold query_results. rewrite H.
  rewrite stamped_field by discriminate. reflexivity.
Qed.
(** X21. With nothing pending for ["LLMResponseAgent"], a query on which
    [retrieve_chunks] returns a non-empty list is answered by
    [generate_response] from that very query and list, with the selected
    model and temperature 0.7; the message is consumed, so the queue is
    empty again, and the store is left as loaded. *)
Theorem coordinate_query_answers_from_its_own_results
    (query selected_model : string) (s : session)
    (results : list (string * string)) :
  Bus.peek_mcp_message "LLMResponseAgent" (bus_of s) = O ->
  (retrieve_chunks create_embeddings query 5 (store_of s) (files_of s)
                   (bus_of s)).1.1 = Returned results ->
  results <> [] ->
  let g := Llm.generate_response create invoke query results selected_model
                                 "0.7" (llm_cache s) in
  let r := coordinate_query create_embeddings create invoke query
                            selected_model s in
  r.1 = Returned (Some g.1)
  /\ llm_cache r.2 = g.2
  /\ Bus.peek_mcp_message "LLMResponseAgent" (bus_of r.2) = O
  /\ store_of r.2 = ensure_initialized (store_of s) (files_of s)
  /\ files_of r.2 = files_of s.
Proof.
  intros Hpeek Hres Hne g r. subst g r. unfold coordinate_query.
  assert (default [] (Bus.message_queues (bus_of s) !! "LLMResponseAgent")
          = []) as Hq0.
  { unfold Bus.peek_mcp_message in Hpeek.
    destruct (default [] _); [reflexivity|discriminate]. }
  pose proof (retrieve_chunks_bus_cases query 5 (store_of s) (files_of s)
                (bus_of s)) as Hc. cbn zeta in Hc.
  destruct Hc as [[Hr _]|(res & l & b2 & Hfresh & _ & _ & Hr & Hq & Hh)];
    rewrite Hr in Hres |- *; cbn [fst snd] in Hres; injection Hres as <-;
    [congruence|].
  assert (Bus.message_queues b2 !! "LLMResponseAgent" = Some [l]) as Hql
    by (rewrite Hq, enqueue_lookup, Hq0; reflexivity).
  assert (Bus.heap b2 !! l
          = Some (Bus.DictObj
                    (BusStats.stamped (bus_of s)
                       (results_message query res
                          (ensure_initialized (store_of s) (files_of s))))))
    as Hl by (rewrite Hh; apply lookup_insert_eq).
  unfold Bus.receive_mcp_message. rewrite Hql, Hl.
  assert (Bus.has_field
            (BusStats.stamped (bus_of s)
               (results_message query res
                  (ensure_initialized (store_of s) (files_of s)))) "sender"
          = true) as ->.
  { apply has_field_true. rewrite stamped_field by discriminate.
    eexists. reflexivity. }
  unfold query_results. cbn [Bus.heap]. rewrite Hl.
  rewrite stamped_field by discriminate.
  change (results_message query res _ !! "payload")
    with (Some (Bus.Struct
                  (Bus.QueryResults query res (length res)
                     (size (list_to_set
                              (document_mapping
                                 (ensure_initialized (store_of s) (files_of s)))
                            : gset string))))).
  cbn iota.
  destruct (Llm.generate_response create invoke query res selected_model
              "0.7" (llm_cache s)) as [[answer sources] cache].
  cbn [fst snd llm_cache bus_of store_of files_of].
  split_and!; try reflexivity.
  unfold Bus.peek_mcp_message. cbn. now rewrite lookup_insert_eq.
Qed.

(** X22. With nothing pending for ["LLMResponseAgent"], a query asked of an
    empty store, or one that the embedder cannot embed, gets the pair
    [(None, None)]: the language model is not consulted and the bus, the
    files and the cache stay as they were. *)
Theorem coordinate_query_without_results_answers_nothing
    (query selected_model : string) (s : session) :
  Bus.peek_mcp_message "LLMResponseAgent" (bus_of s) = O ->
  stored_chunks (ensure_initialized (store_of s) (files_of s)) = []
  \/ create_embeddings [query] = None ->
  coordinate_query create_embeddings create invoke query selected_model s
  = (Returned None,
     mkSession (ensure_initialized (store_of s) (files_of s)) (files_of s)
               (bus_of s) (llm_cache s)).
Proof.
  intros Hpeek Hwhy. unfold coordinate_query.
  pose proof (retrieve_chunks_bus_cases query 5 (store_of s) (files_of s)
                (bus_of s)) as Hc. cbn zeta in Hc.
  destruct Hc as [[Hr _]|(res & l & b2 & _ & Hst & Hrk & _)].
  - rewrite Hr. now rewrite (receive_nothing _ _ Hpeek).
  - exfalso. destruct Hwhy as [H|H]; [congruence|].
    unfold ranked_chunks in Hrk. rewrite H in Hrk. discriminate.
Qed.

(** X23. [coordinate_query] answers the oldest message that waits for
    ["LLMResponseAgent"], not necessarily its own: when the queues are
    well formed and a result message is already pending, the answer is
    generated from the query and the chunks of that message, whatever the
    query now asked. *)
Theorem coordinate_query_answers_oldest_pending_message
    (query selected_model : string) (s : session)
    (l0 : Bus.loc) (rest : list Bus.loc)
    (q0 : string) (c0 : list (string * string)) :
  BusStats.well_queued (bus_of s) ->
  Bus.message_queues (bus_of s) !! "LLMResponseAgent" = Some (l0 :: rest) ->
  query_results (bus_of s) l0 = Returned (q0, c0) ->
  (coordinate_query create_embeddings create invoke query selected_model s).1
  = Returned (Some (Llm.generate_response create invoke q0 c0 selected_model
                      "0.7" (llm_cache s)).1).
Proof.
  intros Hw Hq Hq0. unfold coordinate_query.
  destruct (Hw _ _ l0 Hq ltac:(now left)) as (m0 & Hl0 & Hs0 & _).
  pose proof (retrieve_chunks_bus_cases query 5 (store_of s) (files_of s)
                (bus_of s)) as Hc. cbn zeta in Hc.
  assert (forall b2 q2,
            Bus.message_queues b2 !! "LLMResponseAgent" = Some (l0 :: q2) ->
            Bus.heap b2 !! l0 = Some (Bus.DictObj m0) ->
            (let '(message, b') :=
               Bus.receive_mcp_message "LLMResponseAgent" b2 in
             match message with
             | Some l =>
                 match query_results b' l with
                 | Returned (q, top_chunks) =>
                     let '(answer, sources, cache) :=
                       Llm.generate_response create invoke q top_chunks
                         selected_model "0.7" (llm_cache s) in
                     (Returned (Some (answer, sources)),
                      mkSession (ensure_initialized (store_of s) (files_of s))
                                (files_of s) b' cache)
                 | Raised e =>
                     (Raised e,
                      mkSession (ensure_initialized (store_of s) (files_of s))
                                (files_of s) b' (llm_cache s))
                 end
             | None =>
                 (Returned None,
                  mkSession (ensure_initialized (store_of s) (files_of s))
                            (files_of s) b' (llm_cache s))
             end).1
            = Returned (Some (Llm.generate_response create invoke q0 c0
                                selected_model "0.7" (llm_cache s)).1))
    as Hstep.
  { intros b2 q2 Hq2 Hl2. unfold Bus.receive_mcp_message. rewrite Hq2, Hl2.
    rewrite (proj2 (has_field_true m0 "sender") Hs0).
    assert (query_results
              (Bus.mkState (Bus.heap b2)
                 (<["LLMResponseAgent"%string := q2]> (Bus.message_queues b2))
                 (Bus.clock b2)) l0 = Returned (q0, c0)) as ->.
    { unfold query_results in *. cbn [Bus.heap]. rewrite Hl2.
      rewrite Hl0 in Hq0. exact Hq0. }
    destruct (Llm.generate_response create invoke q0 c0 selected_model
                "0.7" (llm_cache s)) as [[answer sources] cache].
    reflexivity. }
  destruct Hc as [[Hr _]|(res & l & b2 & Hfresh & _ & _ & Hr & Hq2 & Hh)];
    rewrite Hr.
  - exact (Hstep (bus_of s) rest Hq Hl0).
  - apply (Hstep b2 (rest ++ [l])).
    + rewrite Hq2, enqueue_lookup, Hq. reflexivity.
    + rewrite Hh. rewrite !lookup_insert_ne by congruence. exact Hl0.
Qed.
End Coordination.

Section CoordinationInstances.
Import Faiss VectorStore App.

Lemma coordinate_query_answers_from_its_own_results_witness :
  Bus.peek_mcp_message "LLMResponseAgent" (bus_of loaded_session) = O
  /\ (retrieve_chunks length_embedder "bb" 5 (store_of loaded_session)
        (files_of loaded_session) (bus_of loaded_session)).1.1
     = Returned [("bb"%string, "b.txt"%string); ("a"%string, "a.txt"%string)]
  /\ (coordinate_query length_embedder always_create fixed_invoke "bb"
        "llama-3.1-8b-instant" loaded_session).1
     = Returned
         (Some (Llm.generate_response always_create fixed_invoke "bb"
                  [("bb"%string, "b.txt"%string); ("a"%string, "a.txt"%string)]
                  "llama-3.1-8b-instant" "0.7" (llm_cache loaded_session)).1).
Proof.
  assert (Bus.peek_mcp_message "LLMResponseAgent" (bus_of loaded_session) = O)
    as Hp by reflexivity.
  assert ((retrieve_chunks length_embedder "bb" 5 (store_of loaded_session)
             (files_of loaded_session) (bus_of loaded_session)).1.1
          = Returned [("bb"%string, "b.txt"%string);
                      ("a"%string, "a.txt"%string)]) as Hr
    by (vm_compute; reflexivity).
  split; [exact Hp|]. split; [exact Hr|].
  exact (proj1 (coordinate_query_answers_from_its_own_results
                  length_embedder always_create fixed_invoke "bb"
                  "llama-3.1-8b-instant" loaded_session _ Hp Hr
                  ltac:(discriminate))).
Defined.

Lemma coordinate_query_without_results_witness :
  Bus.peek_mcp_message "LLMResponseAgent" Bus.empty = O
  /\ (stored_chunks (ensure_initialized fresh_store (mkDisk None None)) = []
      \/ length_embedder ["q"%string] = None)
  /\ coordinate_query length_embedder always_create fixed_invoke "q"
       "llama-3.1-8b-instant"
       (mkSession fresh_store (mkDisk None None) Bus.empty ∅)
     = (Returned None, mkSession fresh_store (mkDisk None None) Bus.empty ∅).
Proof.
  assert (Bus.peek_mcp_message "LLMResponseAgent" Bus.empty = O) as Hp
    by reflexivity.
  assert (stored_chunks (ensure_initialized fresh_store (mkDisk None None)) = []
          \/ length_embedder ["q"%string] = None) as Hwhy
    by (left; reflexivity).
  split; [exact Hp|]. split; [exact Hwhy|].
  exact (coordinate_query_without_results_answers_nothing
           length_embedder always_create fixed_invoke "q"
           "llama-3.1-8b-instant"
           (mkSession fresh_store (mkDisk None None) Bus.empty ∅) Hp Hwhy).
Defined.

Lemma coordinate_query_answers_oldest_pending_witness :
  BusStats.well_queued (bus_of stale_session)
  /\ Bus.message_queues (bus_of stale_session) !! "LLMResponseAgent"
     = Some [1%positive]
  /\ query_results (bus_of stale_session) 1%positive
     = Returned ("old query"%string, [("a"%string, "a.txt"%string)])
  /\ (coordinate_query length_embedder always_create fixed_invoke "bb"
        "llama-3.1-8b-instant" stale_session).1
     = Returned
         (Some (Llm.generate_response always_create fixed_invoke "old query"
                  [("a"%string, "a.txt"%string)] "llama-3.1-8b-instant" "0.7"
                  (llm_cache stale_session)).1).
Proof.
  assert (BusStats.well_queued (bus_of stale_session)) as Hw.
  { unfold stale_session. cbn [bus_of].
    apply send_well_queued, alloc_well_queued, empty_queues_well_formed. }
  assert (Bus.message_queues (bus_of stale_session) !! "LLMResponseAgent"
          = Some [1%positive]) as Hq by (vm_compute; reflexivity).
  assert (query_results (bus_of stale_session) 1%positive
          = Returned ("old query"%string, [("a"%string, "a.txt"%string)])) as Hq0
    by (vm_compute; reflexivity).
  split; [exact Hw|]. split; [exact Hq|]. split; [exact Hq0|].
  exact (coordinate_query_answers_oldest_pending_message
           length_embedder always_create fixed_invoke "bb"
           "llama-3.1-8b-instant" stale_session _ _ _ _ Hw Hq Hq0).
Defined.
End CoordinationInstances.
